(** * MATTAR: the multi-task controller and the attention mixer

    A shallow embedding of

      - [src/modules/mixers/attn_x.py]              (class [QMixer])
      - [src/controllers/multi_task/xtrans_controller.py] (class [XTransMAC])

    Tensors of floats are lists of real numbers: arithmetic is exact, the
    library primitives ([softmax], [elu], [nn.Linear], [bmm], [mean],
    [F.normalize]) are given by their mathematical definitions.  A tensor
    is taken to have the shape that the source announces for it in its
    comments; the exceptions of the model are the ones the two files raise
    themselves (an [assert], a [raise], a missing dictionary key, a missing
    attribute, a division by zero) and sympy's rank check.  What torch
    raises on tensors of other shapes, and what a write to a missing
    directory raises, is not in the model.  The rank check is done here
    on exact reals: the draws that it rejects in floating point are not
    the same, and the statements on the task representations are made
    from what [GramSchmidt] returns. *)

From Stdlib Require Import Reals Lra Lia ZArith Permutation.
From stdpp Require Import base gmap strings list.

Open Scope R_scope.

(** ** Python exceptions and results *)

Inductive exn : Type :=
| AssertionError (msg : string)
| KeyError (key : string)
| AttributeError (name : string)
| ValueError (msg : string)
| ZeroDivisionError
| FileNotFoundError (path : string)
| Exception (msg : string).

Inductive pyres (A : Type) : Type :=
| Return (a : A)
| Raise (e : exn).
Arguments Return {A} a.
Arguments Raise {A} e.

#[global] Instance pyres_ret : MRet pyres := fun A a => Return a.
#[global] Instance pyres_bind : MBind pyres := fun A B f m =>
  match m with
  | Return a => f a
  | Raise e => Raise e
  end.

Definition returns {A} (m : pyres A) : Prop := exists a, m = Return a.
Definition raises {A} (m : pyres A) : Prop := exists e, m = Raise e.

(** [d[k]] on a Python dict keyed by strings. *)
Definition getitem {V} (d : gmap string V) (k : string) : pyres V :=
  match d !! k with
  | Some v => Return v
  | None => Raise (KeyError k)
  end.

(** ** Tensor primitives *)

Module Tensor.

Definition rsum (xs : list R) : R := foldr Rplus 0 xs.

Definition zsum (xs : list Z) : Z := foldr Z.add 0%Z xs.

(** [x.mean()] of a one-dimensional tensor. *)
Definition mean (xs : list R) : R := rsum xs / INR (length xs).

Definition dot (u v : list R) : R := rsum (zip_with Rmult u v).

(** Column [j] of a matrix stored as a list of rows. *)
Definition col (j : nat) (M : list (list R)) : list R :=
  map (fun row => nth j row 0) M.

(** The matrix [M] with [p] columns, seen with its two axes exchanged
    ([permute] followed by [reshape]). *)
Definition transpose (p : nat) (M : list (list R)) : list (list R) :=
  map (fun j => col j M) (seq 0 p).

(** [th.bmm(A, B)] on one batch element, [B] having [p] columns. *)
Definition matmul (p : nat) (A B : list (list R)) : list (list R) :=
  map (fun row => map (fun j => dot row (col j B)) (seq 0 p)) A.

(** [F.softmax] along the only axis of a vector. *)
Definition softmax (xs : list R) : list R :=
  map (fun x => exp x / rsum (map exp xs)) xs.

(** [F.softmax(M, dim=1)] on a batch of matrices: for one matrix with [p]
    columns, along its first (row) axis, that is, column by column. *)
Definition softmax_dim1 (p : nat) (M : list (list R)) : list (list R) :=
  map (fun i => map (fun j => nth i (softmax (col j M)) 0) (seq 0 p))
      (seq 0 (length M)).

(** [F.elu] with its default [alpha = 1]. *)
Definition elu (x : R) : R := if Rlt_dec 0 x then x else 1 * (exp x - 1).

(** [nn.ReLU]. *)
Definition relu (x : R) : R := Rmax 0 x.

(** [x.mean(dim)] over the first axis of a matrix with [p] columns. *)
Definition mean_dim0 (p : nat) (M : list (list R)) : list R :=
  map (fun e => mean (col e M)) (seq 0 p).

(** [x.mean(dim=-1)]. *)
Definition mean_last (M : list (list R)) : list R := map mean M.

(** [th.cat([A, B], dim=-1)] of two matrices with as many rows. *)
Definition cat_last (A B : list (list R)) : list (list R) :=
  zip_with app A B.

(** [nn.Linear(in_features, out_features)]: one weight row and one bias
    per output feature. *)
Record Linear : Type := mkLinear {
  weight : list (list R);
  bias : list R
}.

Definition linear (l : Linear) (x : list R) : list R :=
  zip_with (fun row b => dot row x + b) (weight l) (bias l).

Definition norm2 (x : list R) : R := sqrt (dot x x).

(** [F.normalize(x, dim=1)] on one row: [x / max(||x||_2, eps)] with the
    default [eps = 1e-12]. *)
Definition normalize (x : list R) : list R :=
  map (fun a => a / Rmax (norm2 x) 1e-12) x.

End Tensor.

(** ** The attention mixer ([attn_x.py]) *)

Module Mixer.
Import Tensor.

(** The decomposer of a task, as far as the mixer uses it.  The two
    functions act on the feature axis, hence on one (batch, time) slot. *)
Record Decomposer : Type := mkDecomposer {
  dec_n_enemies : nat;
  state_nf_al : nat;
  state_nf_en : nat;
  timestep_number_state_dim : nat;
  n_actions_no_attack : nat;
  dec_state_last_action : bool;
  dec_state_timestep_number : bool;
  decompose_state :
    list R -> list (list R) * list (list R) * list (list R) * list R;
  decompose_action_info :
    list (list R) -> list (list R) * list (list R) * list (list R)
}.

(** The attributes that [QMixer.__init__] sets. *)
Record QMixer : Type := mkQMixer {
  n_agents : nat;
  embed_dim : nat;
  attn_embed_dim : nat;
  entity_embed_dim : nat;
  decomposer : Decomposer;
  ally_encoder : Linear;
  enemy_encoder : Linear;
  query : Linear;
  key : Linear;
  hyper_w_1 : Linear;
  hyper_w_final : Linear;
  hyper_b_1 : Linear;
  V_0 : Linear;
  V_2 : Linear
}.

Definition n_enemies (self : QMixer) : nat := dec_n_enemies (decomposer self).
Definition state_last_action (self : QMixer) : bool :=
  dec_state_last_action (decomposer self).
Definition state_timestep_number (self : QMixer) : bool :=
  dec_state_timestep_number (decomposer self).
Definition n_entities (self : QMixer) : nat := (n_agents self + n_enemies self)%nat.

(** [self.V]: [nn.Sequential(nn.Linear, nn.ReLU, nn.Linear(embed_dim, 1))]. *)
Definition V (self : QMixer) (x : list R) : list R :=
  linear (V_2 self) (map relu (linear (V_0 self) x)).

(** Lines 60-76: the entity embeddings of one (batch, time) slot. *)
Definition entity_embed (self : QMixer) (state : list R) : list (list R) :=
  let '(ally_states, enemy_states, last_action_states, _) :=
    decompose_state (decomposer self) state in
  let ally_states :=
    if state_last_action self then
      let '(_, _, compact_action_states) :=
        decompose_action_info (decomposer self) last_action_states in
      cat_last ally_states compact_action_states
    else ally_states in
  let ally_embed := map (linear (ally_encoder self)) ally_states in
  let enemy_embed := map (linear (enemy_encoder self)) enemy_states in
  ally_embed ++ enemy_embed.

(** Line 81: [energy[i][j] = query(e_i) . key(e_j)]. *)
Definition energy (self : QMixer) (entity_embed : list (list R))
  : list (list R) :=
  let proj_query := map (linear (query self)) entity_embed in
  let proj_key :=
    transpose (attn_embed_dim self) (map (linear (key self)) entity_embed) in
  matmul (n_entities self) proj_query proj_key.

(** Line 82. *)
Definition attn_score (self : QMixer) (entity_embed : list (list R))
  : list (list R) :=
  softmax_dim1 (n_entities self) (energy self entity_embed).

(** Lines 79-84: the attention step on one (batch, time) slot. *)
Definition attn_out (self : QMixer) (entity_embed : list (list R)) : list R :=
  let proj_value := transpose (entity_embed_dim self) entity_embed in
  mean_last (matmul (n_entities self) proj_value (attn_score self entity_embed)).

(** Lines 90-93: the input of the hypernetworks, one row per agent. *)
Definition mixing_input (self : QMixer) (state : list R)
    (task_repre_mu : list (list R)) : list (list R) :=
  let attn_out := attn_out self (entity_embed self state) in
  let mixing_input := replicate (n_agents self) attn_out in
  cat_last mixing_input task_repre_mu.

(** Lines 95-108 on one (batch, time) slot. *)
Definition mix (self : QMixer) (agent_qs : list R)
    (mixing_input : list (list R)) : R :=
  (* First layer *)
  let w1 := map (fun x => map Rabs (linear (hyper_w_1 self) x)) mixing_input in
  let b1 :=
    mean_dim0 (embed_dim self) (map (linear (hyper_b_1 self)) mixing_input) in
  let hidden :=
    map elu (zip_with Rplus (map (fun e => dot agent_qs (col e w1))
                                 (seq 0 (embed_dim self))) b1) in
  (* Second layer *)
  let w_final :=
    mean_dim0 (embed_dim self)
      (map (fun x => map Rabs (linear (hyper_w_final self) x)) mixing_input) in
  let v := mean (col 0 (map (V self) mixing_input)) in
  (* Compute final output *)
  dot hidden w_final + v.

(** What [forward] computes on one (batch, time) slot, outside the
    timestep mode: [agent_qs] of shape [n_agents], [states] of shape
    [state_dim], [task_repre_mu] of shape [n_agents, task_repre_dim]. *)
Definition forward_bt (self : QMixer) (agent_qs : list R) (states : list R)
    (task_repre_mu : list (list R)) : R :=
  mix self agent_qs (mixing_input self states task_repre_mu).

(** Three tensors that agree on their first axis, slot by slot. *)
Definition zip_with3 {A B C D : Type} (f : A -> B -> C -> D)
    (xs : list A) (ys : list B) (zs : list C) : list D :=
  zip_with (fun x yz => f x yz.1 yz.2) xs (zip ys zs).

(** [QMixer.forward]: [agent_qs] of shape [bs, seq_len, n_agents], [states]
    of shape [bs, seq_len, state_dim], [task_repre_mu] of shape
    [bs, seq_len, n_agents, task_repre_dim]; [q_tot] of shape
    [bs, seq_len, 1].  Every operation acts on the (batch, time) slots
    one by one; the [raise] of line 88 is reached whatever the batch. *)
Definition forward (self : QMixer) (agent_qs : list (list (list R)))
    (states : list (list (list R)))
    (task_repre_mu : list (list (list (list R))))
  : pyres (list (list (list R))) :=
  if state_timestep_number self then Raise (Exception "Not Implemented")
  else
    Return (zip_with3 (zip_with3 (fun q s r => [forward_bt self q s r]))
              agent_qs states task_repre_mu).

(** The attention step as the specification words it: scores scaled by
    the square root of the key dimension, softmax along the key axis,
    the weights of each querying entity applied to the embeddings, and
    the mean over the querying entities. *)
Definition scaled_energy (self : QMixer) (entity_embed : list (list R))
  : list (list R) :=
  map (map (fun s => s / sqrt (INR (attn_embed_dim self))))
      (energy self entity_embed).

Definition attn_out_spec (self : QMixer) (entity_embed : list (list R))
  : list R :=
  let weights := map softmax (scaled_energy self entity_embed) in
  mean_dim0 (entity_embed_dim self)
    (matmul (entity_embed_dim self) weights entity_embed).

End Mixer.

(** ** The multi-task controller ([xtrans_controller.py]) *)

(** The networks that the controller takes from the registries: the shared
    agent, the shared dynamic encoder and the dynamic decoder of a task.
    Each is an object with weights and buffers, its [state_dict], and a
    call may leave its own object in another state. *)
Class Networks : Type := {
  StateDict : Type;
  (** [self.agent(agent_inputs, hidden_states, task_repre, task)] *)
  agent_call :
    StateDict -> list (list R) -> option (list (list (list R))) ->
    list (list R) -> string -> list (list R) * list (list (list R)) * StateDict;
  (** [self.agent.init_hidden()], a tensor of shape [1, hidden_dim] *)
  agent_init_hidden : StateDict -> list R;
  (** [self.dynamic_encoder(obs, state, actions, task, task_repre)] *)
  encoder_call :
    StateDict -> list (list (list R)) -> list (list R) ->
    list (list (list R)) -> string -> list (list R) ->
    list (list R) * nat * StateDict;
  (** [self.task2dynamic_decoder[task](encoded_latent, bs)] *)
  decoder_call :
    StateDict -> list (list R) -> nat ->
    list (list (list R)) * list (list R) * list (list R) * StateDict
}.

#[global] Instance R_eq_dec : EqDecision R := Req_dec_T.

Module MAC.
Import Tensor.

Record MainArgs : Type := mkMainArgs {
  args_agent_output_type : string;
  (** [None] when the run's configuration has no such entry *)
  mask_before_softmax : option bool;
  task_repre_dim : nat
}.

Record TaskArgs : Type := mkTaskArgs {
  args_n_agents : nat;
  obs_last_action : bool;
  obs_agent_id : bool
}.

(** The action selector, as far as the controller uses it. *)
Record ActionSelector : Type := mkActionSelector {
  epsilon : R;
  select_action :
    list (list (list R)) -> list (list (list Z)) -> nat -> bool ->
    list (list Z)
}.

(** An episode batch; each field gives the slice [[:, t]] of its tensor. *)
Record EpisodeBatch : Type := mkEpisodeBatch {
  batch_size : nat;
  obs : nat -> list (list (list R));
  state : nat -> list (list R);
  avail_actions : nat -> list (list (list Z));
  actions_onehot : nat -> list (list (list R))
}.

(** The files written by [th.save], by path. *)
Abbreviation Files := (gmap string StateDict).

Section Controller.
Context `{Networks}.

(** The attributes of a constructed controller. *)
Record XTransMAC : Type := mkXTransMAC {
  train_tasks : list string;
  task2args : gmap string TaskArgs;
  task2n_agents : gmap string nat;
  main_args : MainArgs;
  agent_output_type : string;
  action_selector : ActionSelector;
  task2dynamic_decoder : gmap string StateDict;
  dynamic_encoder : StateDict;
  agent : StateDict;
  hidden_states : option (list (list (list R)));
  task2repre : gmap string (list R)
}.

Definition set_agent (self : XTransMAC) (a : StateDict) : XTransMAC :=
  mkXTransMAC (train_tasks self) (task2args self) (task2n_agents self)
    (main_args self) (agent_output_type self) (action_selector self)
    (task2dynamic_decoder self) (dynamic_encoder self) a
    (hidden_states self) (task2repre self).

Definition set_dynamic_encoder (self : XTransMAC) (e : StateDict) : XTransMAC :=
  mkXTransMAC (train_tasks self) (task2args self) (task2n_agents self)
    (main_args self) (agent_output_type self) (action_selector self)
    (task2dynamic_decoder self) e (agent self)
    (hidden_states self) (task2repre self).

Definition set_task2dynamic_decoder (self : XTransMAC)
    (d : gmap string StateDict) : XTransMAC :=
  mkXTransMAC (train_tasks self) (task2args self) (task2n_agents self)
    (main_args self) (agent_output_type self) (action_selector self)
    d (dynamic_encoder self) (agent self)
    (hidden_states self) (task2repre self).

Definition set_hidden_states (self : XTransMAC)
    (h : option (list (list (list R)))) : XTransMAC :=
  mkXTransMAC (train_tasks self) (task2args self) (task2n_agents self)
    (main_args self) (agent_output_type self) (action_selector self)
    (task2dynamic_decoder self) (dynamic_encoder self) (agent self)
    h (task2repre self).

Definition set_task2repre (self : XTransMAC)
    (r : gmap string (list R)) : XTransMAC :=
  mkXTransMAC (train_tasks self) (task2args self) (task2n_agents self)
    (main_args self) (agent_output_type self) (action_selector self)
    (task2dynamic_decoder self) (dynamic_encoder self) (agent self)
    (hidden_states self) r.

(** *** Task representations *)

(** [get_task_repres]: the [assert] comes first, then the two lookups. *)
Definition get_task_repres (self : XTransMAC) (task : string)
    (require_grad : bool) : pyres (list (list R)) :=
  if require_grad then
    Raise (AssertionError "Not train task repre in mt training phase!")
  else
    repre ← getitem (task2repre self) task;
    n ← getitem (task2n_agents self) task;
    mret (replicate n repre).

(** sympy's [GramSchmidt(vlist)], that is [orthogonalize] with
    [normalize=False] and [rankcheck=True].  The rank check tests the
    vector left by the projections for zero, here on exact reals. *)
Definition is_zero_matrix (v : list R) : bool :=
  bool_decide (Forall (fun a => a = 0) v).

Definition project (a b : list R) : list R :=
  map (fun x => x * (dot a b / dot b b)) b.

Definition vadd (u v : list R) : list R := zip_with Rplus u v.
Definition vsub (u v : list R) : list R := zip_with Rminus u v.

Definition perp_to_subspace (vec : list R) (basis : list (list R)) : list R :=
  match map (project vec) basis with
  | [] => vec
  | c :: components => vsub vec (foldl vadd c components)
  end.

Fixpoint orthogonalize (vecs ret : list (list R)) : pyres (list (list R)) :=
  match vecs with
  | [] => Return ret
  | vec :: vecs =>
      let perp := perp_to_subspace vec ret in
      if is_zero_matrix perp then
        Raise (ValueError "GramSchmidt: vector set not linearly independent")
      else orthogonalize vecs (ret ++ [perp])
  end.

Definition GramSchmidt (vlist : list (list R)) : pyres (list (list R)) :=
  match vlist with
  | vec :: _ =>
      if is_zero_matrix vec then
        Raise (ValueError "GramSchmidt: vector set not linearly independent")
      else orthogonalize vlist []
  | [] => orthogonalize vlist []
  end.

(** [orthogo_tensor(x)] for [x] of shape [m, n]. *)
Definition orthogo_tensor (m n : nat) (x : list (list R))
  : pyres (list (list R)) :=
  gram ← GramSchmidt x;
  let ort_list :=
    map (fun i => map (fun j => nth j (nth i gram []) 0) (seq 0 n)) (seq 0 m) in
  mret (map normalize ort_list).

(** [th.rand((m, n))]: the entry drawn at each position. *)
Definition rand_matrix (rand : nat -> nat -> R) (m n : nat) : list (list R) :=
  map (fun i => map (fun j => rand i j) (seq 0 n)) (seq 0 m).

(** [init_task_repres], with the draw of [th.rand] as an argument. *)
Definition init_task_repres (self : XTransMAC) (rand : nat -> nat -> R)
  : pyres XTransMAC :=
  let m := length (train_tasks self) in
  let n := task_repre_dim (main_args self) in
  task_repres ← orthogo_tensor m n (rand_matrix rand m n);
  mret (set_task2repre self
          (foldl (fun d it => <[it.2 := nth it.1 task_repres []]> d) ∅
                 (zip (seq 0 m) (train_tasks self)))).

(** *** Inputs and forward *)

Definition eye (n : nat) : list (list R) :=
  map (fun i => map (fun j => if (i =? j)%nat then 1 else 0) (seq 0 n))
      (seq 0 n).

Definition zeros_like (x : list (list (list R))) : list (list (list R)) :=
  map (map (map (fun _ => 0))) x.

(** [th.cat([...], dim=1)] of a list of matrices with as many rows. *)
Definition cat_dim1 (xs : list (list (list R))) : list (list R) :=
  match xs with
  | [] => []
  | x :: xs => foldl cat_last x xs
  end.

Definition _build_inputs (self : XTransMAC) (batch : EpisodeBatch) (t : nat)
    (task : string) : pyres (list (list R)) :=
  let bs := batch_size batch in
  let inputs := [obs batch t] in
  task_args ← getitem (task2args self) task;
  n_agents ← getitem (task2n_agents self) task;
  let inputs :=
    if obs_last_action task_args then
      if (t =? 0)%nat then inputs ++ [zeros_like (actions_onehot batch t)]
      else inputs ++ [actions_onehot batch (t - 1)]
    else inputs in
  let inputs :=
    if obs_agent_id task_args then inputs ++ [replicate bs (eye n_agents)]
    else inputs in
  (* x.reshape(bs*n_agents, -1) is the concatenation of the batch entries *)
  mret (cat_dim1 (map (fun x => concat x) inputs)).

(** [x[mask == 0] = v] on a matrix and a mask of its shape. *)
Definition fill_where_zero (x : list (list R)) (mask : list (list Z)) (v : R)
  : list (list R) :=
  zip_with (zip_with (fun xi a => if (a =? 0)%Z then v else xi)) x mask.

(** Lines 76-97. *)
Definition policy (self : XTransMAC) (agent_outs : list (list R))
    (avail_actions : list (list (list Z))) (test_mode : bool)
  : list (list R) :=
  if decide (agent_output_type self = "pi_logits") then
    let mask := default true (mask_before_softmax (main_args self)) in
    let reshaped_avail_actions := concat avail_actions in
    let agent_outs :=
      if mask then fill_where_zero agent_outs reshaped_avail_actions (-1e10)
      else agent_outs in
    let agent_outs := map softmax agent_outs in
    if negb test_mode then
      (* Epsilon floor *)
      let eps := epsilon (action_selector self) in
      let agent_outs :=
        if mask then
          zip_with (fun row avail =>
                      let epsilon_action_num := IZR (zsum avail) in
                      map (fun p => (1 - eps) * p + 1 * eps / epsilon_action_num)
                          row)
                   agent_outs reshaped_avail_actions
        else
          map (fun row =>
                 let epsilon_action_num := INR (length row) in
                 map (fun p => (1 - eps) * p + 1 * eps / epsilon_action_num)
                     row)
              agent_outs in
      if mask then fill_where_zero agent_outs reshaped_avail_actions 0
      else agent_outs
    else agent_outs
  else agent_outs.

(** [forward]: the controller as the call leaves it, and the result.  The
    attributes change on the line of the call of the agent; on tensors of
    the announced shapes no exception follows that line. *)
Definition forward (self : XTransMAC) (ep_batch : EpisodeBatch) (t : nat)
    (task : string) (test_mode : bool)
  : XTransMAC * pyres (list (list (list R))) :=
  let before_agent :=
    agent_inputs ← _build_inputs self ep_batch t task;
    n_agents ← getitem (task2n_agents self) task;
    bs ← (if (n_agents =? 0)%nat then Raise ZeroDivisionError
          else Return (length agent_inputs / n_agents)%nat);
    task_repre ← get_task_repres self task false;
    mret (agent_inputs, n_agents, concat (replicate bs task_repre)) in
  match before_agent with
  | Raise e => (self, Raise e)
  | Return (agent_inputs, n_agents, task_repre) =>
      let avail_actions := avail_actions ep_batch t in
      let '(agent_outs, hidden, agent') :=
        agent_call (agent self) agent_inputs (hidden_states self)
                   task_repre task in
      let self := set_hidden_states (set_agent self agent') (Some hidden) in
      let agent_outs := policy self agent_outs avail_actions test_mode in
      (* agent_outs.view(ep_batch.batch_size, n_agents, -1) *)
      (self,
       Return (reshape (replicate (batch_size ep_batch) n_agents) agent_outs))
  end.

(** [select_actions], [bs] being the selection of batch entries. *)
Definition select_actions (self : XTransMAC) (ep_batch : EpisodeBatch)
    (t_ep t_env : nat) (task : string) (bs : forall A, list A -> list A)
    (test_mode : bool) : XTransMAC * pyres (list (list Z)) :=
  let avail_actions := avail_actions ep_batch t_ep in
  let '(self, agent_outputs) := forward self ep_batch t_ep task test_mode in
  (self,
   agent_outputs ← agent_outputs;
   mret (select_action (action_selector self) (bs _ agent_outputs)
           (bs _ avail_actions) t_env test_mode)).

Definition init_hidden (self : XTransMAC) (batch_size : nat) (task : string)
  : XTransMAC * pyres unit :=
  match getitem (task2n_agents self) task with
  | Raise e => (self, Raise e)
  | Return n_agents =>
      let hidden_states := agent_init_hidden (agent self) in
      (set_hidden_states self
         (Some (replicate batch_size (replicate n_agents hidden_states))),
       Return tt)
  end.

(** *** Parameters of the dynamic model *)

Definition dynamic_encoder_parameters (self : XTransMAC) : list StateDict :=
  [dynamic_encoder self].

Definition dynamic_decoder_parameters (self : XTransMAC) (task : string)
  : pyres (list StateDict) :=
  d ← getitem (task2dynamic_decoder self) task;
  mret [d].

(** [task_encoder_forward]: the controller as the call leaves it, and the
    result. *)
Definition task_encoder_forward (self : XTransMAC) (batch : EpisodeBatch)
    (t : nat) (task : string)
  : XTransMAC * pyres (list (list (list R)) * list (list R) * list (list R)) :=
  let '(obs, state, actions) :=
    (obs batch t, state batch t, actions_onehot batch t) in
  (* Should require_grad=False here !!! *)
  match get_task_repres self task false with
  | Raise e => (self, Raise e)
  | Return task_repre =>
  let '(encoded_latent, bs, encoder') :=
    encoder_call (dynamic_encoder self) obs state actions task task_repre in
  let self := set_dynamic_encoder self encoder' in
  match getitem (task2dynamic_decoder self) task with
  | Raise e => (self, Raise e)
  | Return decoder =>
  let '(next_obs, next_state, reward, decoder') :=
    decoder_call decoder encoded_latent bs in
  let self :=
    set_task2dynamic_decoder self
      (<[task := decoder']> (task2dynamic_decoder self)) in
  (self, Return (next_obs, next_state, reward))
  end end.

(** *** Persistence *)


Definition th_load (fs : Files) (path : string) : pyres StateDict :=
  match fs !! path with
  | Some sd => Return sd
  | None => Raise (FileNotFoundError path)
  end.

(** [self.<name>] where a module with a [load_state_dict] is expected: the
    controller has two such attributes. *)
Definition module_attr (self : XTransMAC) (name : string) : pyres StateDict :=
  if decide (name = "agent") then Return (agent self)
  else if decide (name = "dynamic_encoder") then Return (dynamic_encoder self)
  else Raise (AttributeError name).

(** [self.<name>.load_state_dict(sd)]. *)
Definition load_state_dict (self : XTransMAC) (name : string) (sd : StateDict)
  : XTransMAC :=
  if decide (name = "agent") then set_agent self sd
  else if decide (name = "dynamic_encoder") then set_dynamic_encoder self sd
  else self.

(** [save_models], on the files by path; the directory [path] is taken
    to exist. *)
Definition save_models (self : XTransMAC) (fs : Files) (path : string) : Files :=
  let fs := <[path +:+ "/agent.th" := agent self]> fs in
  <[path +:+ "/dynamic_encoder.th" := dynamic_encoder self]> fs.

(** [load_models]: the controller as the call leaves it, and how the call
    ends.  Python looks the attribute up before it evaluates [th.load]. *)
Definition load_models (self : XTransMAC) (fs : Files) (path : string)
  : XTransMAC * pyres unit :=
  match module_attr self "agent" with
  | Raise e => (self, Raise e)
  | Return _ =>
  match th_load fs (path +:+ "/agent.th") with
  | Raise e => (self, Raise e)
  | Return sd =>
  let self := load_state_dict self "agent" sd in
  match module_attr self "dynmaic_encoder" with
  | Raise e => (self, Raise e)
  | Return _ =>
  match th_load fs (path +:+ "/dynamic_encoder.th") with
  | Raise e => (self, Raise e)
  | Return sd =>
  (load_state_dict self "dynmaic_encoder" sd, Return tt)
  end end end end.

(** [load_state], the copy from another controller. *)
Definition load_state (self other_mac : XTransMAC) : XTransMAC :=
  let self := load_state_dict self "agent" (agent other_mac) in
  load_state_dict self "dynamic_encoder" (dynamic_encoder other_mac).

End Controller.
End MAC.

(** ** Vectors *)

Module LinAlg.
Import Tensor MAC.

Definition scale (c : R) (v : list R) : list R := map (fun x => c * x) v.

End LinAlg.

(** ** Concrete networks and inputs *)

Module Examples.
Import Tensor Mixer.

(** Two allies and one enemy, one feature each; no last action and no
    timestep feature in the state. *)
Definition ex_decomposer (timestep : bool) : Decomposer :=
  mkDecomposer 1 1 1 0 1 false timestep
    (fun s => ([[nth 0 s 0]; [nth 1 s 0]], [[nth 2 s 0]], [], []))
    (fun _ => ([], [], [])).

(** Embeddings of dimension 1 that copy the feature; the query copies
    the embedding and the key is the constant 1. *)
Definition ex_mixer (timestep : bool) : QMixer :=
  mkQMixer 2 1 1 1 (ex_decomposer timestep)
    (mkLinear [[1]] [0]) (mkLinear [[1]] [0])
    (mkLinear [[1]] [0]) (mkLinear [[0]] [1])
    (mkLinear [[1; 1]] [0]) (mkLinear [[1; 0]] [1]) (mkLinear [[0; 0]] [0])
    (mkLinear [[1; 1]] [0]) (mkLinear [[1]] [0]).

(** The same with queries and keys of dimension 4. *)
Definition ex_mixer4 : QMixer :=
  mkQMixer 2 1 4 1 (ex_decomposer false)
    (mkLinear [[1]] [0]) (mkLinear [[1]] [0])
    (mkLinear [[1]; [0]; [0]; [0]] [0; 0; 0; 0])
    (mkLinear [[0]; [0]; [0]; [0]] [1; 0; 0; 0])
    (mkLinear [[1; 1]] [0]) (mkLinear [[1; 0]] [1]) (mkLinear [[0; 0]] [0])
    (mkLinear [[1; 1]] [0]) (mkLinear [[1]] [0]).

Definition ex_state : list R := [0; 1; 0].
Definition ex_repre : list (list R) := [[1]; [1]].
Definition ex_qs : list R := [1; 2].

End Examples.

Module ControllerExamples.
Import Tensor MAC.

(** Networks whose weights are a counter: the agent returns its inputs as
    logits; the encoder and the decoder count their calls. *)
Definition ex_networks : Networks := {|
  StateDict := nat;
  agent_call := fun w x _ _ _ => (x, [x], w);
  agent_init_hidden := fun _ => [0];
  encoder_call := fun w obs _ _ _ repre => (repre, length obs, S w);
  decoder_call := fun w lat _ => ([lat], lat, [], S w)
|}.

(** One task with one agent; exploration at one half. *)
Definition ex_mac (output_type : string) (mask : option bool)
  : @XTransMAC ex_networks :=
  @mkXTransMAC ex_networks
    ["t"] {["t" := mkTaskArgs 1 false false]} {["t" := 1%nat]}
    (mkMainArgs output_type mask 2) output_type
    (mkActionSelector (1 / 2) (fun _ _ _ _ => []))
    {["t" := 7%nat]} 5%nat 3%nat None {["t" := [1; 0]]}.

(** A batch of one episode whose observation is [logits]. *)
Definition ex_batch (logits : list R) (avail : list Z) : EpisodeBatch :=
  mkEpisodeBatch 1 (fun _ => [[logits]]) (fun _ => [[]])
    (fun _ => [[avail]]) (fun _ => [[[]]]).

End ControllerExamples.

Module StoreExamples.
Import Tensor MAC.

(** Two tasks and representations of dimension 2, before the store is
    filled. *)
Definition ex_mac2 : @XTransMAC ControllerExamples.ex_networks :=
  @mkXTransMAC ControllerExamples.ex_networks
    ["a"; "b"]
    {["a" := mkTaskArgs 1 false false; "b" := mkTaskArgs 2 false false]}
    {["a" := 1%nat; "b" := 2%nat]}
    (mkMainArgs "q" None 2) "q"
    (mkActionSelector (1 / 2) (fun _ _ _ _ => []))
    {["a" := 7%nat; "b" := 8%nat]} 5%nat 3%nat None ∅.


Definition rand_diagonal : nat -> nat -> R :=
  fun i j => if (i =? j)%nat then 1 / 2 else 0.

End StoreExamples.

(** ** More of the two files *)

Module More.
Import Tensor Mixer MAC.

(** *** [QMixer.__init__]: the shapes of the layers *)

(** [nn.Linear(in_features, out_features)]. *)
Record LinearShape : Type := mkLinearShape {
  in_features : nat;
  out_features : nat
}.

Record QMixerShapes : Type := mkQMixerShapes {
  ally_encoder_shape : LinearShape;
  enemy_encoder_shape : LinearShape;
  query_shape : LinearShape;
  key_shape : LinearShape;
  mixing_input_dim : nat;
  hyper_w_1_shape : LinearShape;
  hyper_w_final_shape : LinearShape;
  hyper_b_1_shape : LinearShape;
  V_0_shape : LinearShape;
  V_2_shape : LinearShape
}.

(** Lines 27-51, from the decomposer and from [args.mixing_embed_dim],
    [args.attn_embed_dim], [args.entity_embed_dim], [args.task_repre_dim]. *)
Definition QMixer_init_shapes (decomposer : Decomposer)
    (mixing_embed_dim attn_embed_dim entity_embed_dim task_repre_dim : nat)
  : QMixerShapes :=
  let ally :=
    if dec_state_last_action decomposer then
      mkLinearShape
        (state_nf_al decomposer + n_actions_no_attack decomposer + 1)
        entity_embed_dim
    else mkLinearShape (state_nf_al decomposer) entity_embed_dim in
  let enemy := mkLinearShape (state_nf_en decomposer) entity_embed_dim in
  let mixing_input_dim :=
    (entity_embed_dim + timestep_number_state_dim decomposer
     + task_repre_dim)%nat in
  mkQMixerShapes ally enemy
    (mkLinearShape entity_embed_dim attn_embed_dim)
    (mkLinearShape entity_embed_dim attn_embed_dim)
    mixing_input_dim
    (mkLinearShape mixing_input_dim mixing_embed_dim)
    (mkLinearShape mixing_input_dim mixing_embed_dim)
    (mkLinearShape mixing_input_dim mixing_embed_dim)
    (mkLinearShape mixing_input_dim mixing_embed_dim)
    (mkLinearShape mixing_embed_dim 1).

(** A layer of a given shape: one weight row of [in_features] entries
    and one bias per output feature. *)
Definition has_shape (l : Linear) (s : LinearShape) : Prop :=
  length (weight l) = out_features s /\
  length (bias l) = out_features s /\
  Forall (fun row => length row = in_features s) (weight l).

(** A mixer whose layers have the shapes that [__init__] gives them. *)
Definition built_by_init (self : QMixer) (task_repre_dim : nat) : Prop :=
  let shapes :=
    QMixer_init_shapes (decomposer self) (embed_dim self)
      (attn_embed_dim self) (entity_embed_dim self) task_repre_dim in
  has_shape (ally_encoder self) (ally_encoder_shape shapes) /\
  has_shape (enemy_encoder self) (enemy_encoder_shape shapes) /\
  has_shape (query self) (query_shape shapes) /\
  has_shape (key self) (key_shape shapes) /\
  has_shape (hyper_w_1 self) (hyper_w_1_shape shapes) /\
  has_shape (hyper_w_final self) (hyper_w_final_shape shapes) /\
  has_shape (hyper_b_1 self) (hyper_b_1_shape shapes) /\
  has_shape (V_0 self) (V_0_shape shapes) /\
  has_shape (V_2 self) (V_2_shape shapes).

(** *** The controller *)

(** The entries of a task's scheme that [_get_input_shape] reads:
    [scheme["obs"]["vshape"]] and [scheme["actions_onehot"]["vshape"][0]]. *)
Record Scheme : Type := mkScheme {
  obs_vshape : nat;
  actions_onehot_vshape : nat
}.

Record InputShapeInfo : Type := mkInputShapeInfo {
  input_shape : nat;
  last_action_shape : nat;
  agent_id_shape : nat
}.

Section Controller.
Context `{Networks}.

(** One turn of the loop of [_get_input_shape]. *)
Definition input_shape_of_task (self : XTransMAC)
    (task2scheme : gmap string Scheme) (task : string)
  : pyres InputShapeInfo :=
  task_scheme ← getitem task2scheme task;
  let input_shape := obs_vshape task_scheme in
  task_args ← getitem (task2args self) task;
  let '(input_shape, last_action_shape) :=
    if obs_last_action task_args then
      ((input_shape + actions_onehot_vshape task_scheme)%nat,
       actions_onehot_vshape task_scheme)
    else (input_shape, 0%nat) in
  '(input_shape, agent_id_shape) ←
    (if obs_agent_id task_args then
       n ← getitem (task2n_agents self) task;
       mret ((input_shape + n)%nat, n)
     else mret (input_shape, 0%nat));
  mret (mkInputShapeInfo input_shape last_action_shape agent_id_shape).

(** The loop of [_get_input_shape], from the dictionary built so far
    (or the exception raised so far). *)
Definition input_shape_loop (self : XTransMAC)
    (task2scheme : gmap string Scheme)
    (acc : pyres (gmap string InputShapeInfo)) (tasks : list string)
  : pyres (gmap string InputShapeInfo) :=
  foldl (fun acc task =>
           task2input_shape_info ← acc;
           info ← input_shape_of_task self task2scheme task;
           mret (<[task := info]> task2input_shape_info))
        acc tasks.

(** [_get_input_shape]; [task2scheme] is the attribute of that name. *)
Definition _get_input_shape (self : XTransMAC)
    (task2scheme : gmap string Scheme) : pyres (gmap string InputShapeInfo) :=
  input_shape_loop self task2scheme (Return ∅) (train_tasks self).

(** [parameters] and [task_encoder_parameters]. *)
Definition parameters (self : XTransMAC) : list StateDict := [agent self].

Definition task_encoder_parameters (self : XTransMAC) (task : string)
  : pyres (list StateDict) :=
  d ← getitem (task2dynamic_decoder self) task;
  mret (dynamic_encoder_parameters self ++ [d]).

End Controller.
End More.


Module ExtraExamples.
Import Tensor MAC More.

(** The one-task controller with policy logits, the default mask and an
    exploration rate of 1. *)
Definition ex_mac_explore : @XTransMAC ControllerExamples.ex_networks :=
  @mkXTransMAC ControllerExamples.ex_networks
    ["t"] {["t" := mkTaskArgs 1 false false]} {["t" := 1%nat]}
    (mkMainArgs "pi_logits" None 2) "pi_logits"
    (mkActionSelector 1 (fun _ _ _ _ => []))
    {["t" := 7%nat]} 5%nat 3%nat None {["t" := [1; 0]]}.

(** A task with two agents whose inputs hold the last action and the
    agent identifier; its scheme has observations of 2 entries and 3
    actions. *)
Definition ex_mac_inputs : @XTransMAC ControllerExamples.ex_networks :=
  @mkXTransMAC ControllerExamples.ex_networks
    ["t"] {["t" := mkTaskArgs 2 true true]} {["t" := 2%nat]}
    (mkMainArgs "q" None 2) "q"
    (mkActionSelector (1 / 2) (fun _ _ _ _ => []))
    {["t" := 7%nat]} 5%nat 3%nat None {["t" := [1; 0]]}.

Definition ex_scheme : gmap string Scheme := {["t" := mkScheme 2 3]}.

Definition ex_batch_inputs : EpisodeBatch :=
  mkEpisodeBatch 1
    (fun _ => [[[1; 2]; [3; 4]]]) (fun _ => [[]])
    (fun _ => [[[1; 1; 1]; [1; 1; 1]]%Z])
    (fun _ => [[[0; 1; 0]; [0; 0; 1]]]).

(** The controller of two tasks after [init_task_repres] on the draw
    [rand_diagonal]. *)
Definition ex_mac2_filled : @XTransMAC ControllerExamples.ex_networks :=
  set_task2repre StoreExamples.ex_mac2
    (<["b" := normalize [0; 1 / 2]]> (<["a" := normalize [1 / 2; 0]]> ∅)).

End ExtraExamples.


Module Shape.

(** A tensor of shape [[bs, n, w]], and a matrix of shape [[k, w]]. *)
Definition shape3 {A : Type} (bs n w : nat) (x : list (list (list A))) : Prop :=
  length x = bs /\
  Forall (fun e => length e = n /\ Forall (fun row => length row = w) e) x.

Definition shape2 {A : Type} (k w : nat) (x : list (list A)) : Prop :=
  length x = k /\ Forall (fun row => length row = w) x.

End Shape.


(** ** Quantities of the statements on a row of action probabilities *)

Module ActionRow.
Import Tensor.

(** An availability row holds zeros and ones. *)
Definition is_mask (avail : list Z) : Prop :=
  Forall (fun a => a = 0%Z \/ a = 1%Z) avail.

(** The number of available actions. *)
Definition count_avail (avail : list Z) : nat :=
  length (filter (fun a => a <> 0%Z) avail).

(** The probability that a row gives to the available actions, and to
    the unavailable ones. *)
Definition sum_avail (row : list R) (avail : list Z) : R :=
  rsum (zip_with (fun p a => if (a =? 0)%Z then 0 else p) row avail).

Definition sum_unavail (row : list R) (avail : list Z) : R :=
  rsum (zip_with (fun p a => if (a =? 0)%Z then p else 0) row avail).

End ActionRow.

(** * Properties *)

(** ** Facts on the tensor primitives *)

Module TensorFacts.
Import Tensor.

Lemma rsum_app (xs ys : list R) : rsum (xs ++ ys) = rsum xs + rsum ys.
Proof. induction xs as [|x xs IH]; simpl; [lra | rewrite IH; lra]. Qed.

Lemma rsum_nonneg (xs : list R) : Forall (Rle 0) xs -> 0 <= rsum xs.
Proof. induction 1; simpl; lra. Qed.

Lemma rsum_le (xs ys : list R) : Forall2 Rle xs ys -> rsum xs <= rsum ys.
Proof. induction 1; simpl; lra. Qed.

Lemma rsum_scale (c : R) (xs : list R) :
  rsum (map (fun x => c * x) xs) = c * rsum xs.
Proof. induction xs as [|x xs IH]; simpl; [lra | rewrite IH; lra]. Qed.

Lemma rsum_div (c : R) (xs : list R) :
  rsum (map (fun x => x / c) xs) = rsum xs / c.
Proof.
  induction xs as [|x xs IH]; simpl; [unfold Rdiv; lra | rewrite IH].
  unfold Rdiv; lra.
Qed.

Lemma rsum_perm (xs ys : list R) : Permutation xs ys -> rsum xs = rsum ys.
Proof. induction 1; simpl; lra. Qed.

Lemma rsum_replicate (n : nat) (c : R) : rsum (replicate n c) = INR n * c.
Proof.
  induction n as [|n IH]; [simpl; lra|].
  rewrite S_INR. simpl. rewrite IH. lra.
Qed.

Lemma dot_mono_l (u u' w : list R) :
  Forall2 Rle u u' -> Forall (Rle 0) w -> dot u w <= dot u' w.
Proof.
  unfold dot. intros Hu. revert w.
  induction Hu as [|x y u u' Hxy Hu IH]; intros w Hw; [simpl; lra|].
  destruct w as [|c w]; simpl; [lra|].
  inversion Hw; subst. specialize (IH w ltac:(assumption)). nra.
Qed.

Lemma elu_mono (x y : R) : x <= y -> elu x <= elu y.
Proof.
  intros Hxy. unfold elu.
  destruct (Rlt_dec 0 x) as [Hx|Hx], (Rlt_dec 0 y) as [Hy|Hy]; try lra.
  - assert (exp x <= exp 0).
    { destruct (Req_dec x 0) as [->|]; [lra|].
      left. apply exp_increasing. lra. }
    rewrite exp_0 in *. lra.
  - destruct Hxy as [Hlt| ->]; [|lra].
    pose proof (exp_increasing _ _ Hlt). lra.
Qed.

Lemma col_nonneg (j : nat) (M : list (list R)) :
  Forall (Forall (Rle 0)) M -> Forall (Rle 0) (col j M).
Proof.
  unfold col. intros HM. apply Forall_map.
  eapply Forall_impl; [exact HM|]. intros row Hrow. simpl.
  destruct (nth_in_or_default j row 0) as [Hin| ->]; [|lra].
  rewrite Forall_forall in Hrow. apply Hrow. apply list_elem_of_In; exact Hin.
Qed.

Lemma mean_nonneg (xs : list R) : Forall (Rle 0) xs -> 0 <= mean xs.
Proof.
  intros Hxs. unfold mean. destruct xs as [|x xs].
  - simpl. unfold Rdiv. rewrite Rinv_0. lra.
  - apply Rmult_le_pos; [apply rsum_nonneg; exact Hxs|].
    left. apply Rinv_0_lt_compat. apply lt_0_INR. simpl. lia.
Qed.

Lemma mean_dim0_nonneg (p : nat) (M : list (list R)) :
  Forall (Forall (Rle 0)) M -> Forall (Rle 0) (mean_dim0 p M).
Proof.
  intros HM. unfold mean_dim0. apply Forall_map, Forall_forall.
  intros e _. simpl. apply mean_nonneg, col_nonneg, HM.
Qed.

Lemma map_Rabs_nonneg (xs : list R) : Forall (Rle 0) (map Rabs xs).
Proof. apply Forall_map, Forall_forall. intros x _. apply Rabs_pos. Qed.

Lemma rsum_exp_pos (xs : list R) : xs <> [] -> 0 < rsum (map exp xs).
Proof.
  destruct xs as [|x xs]; [congruence|]. intros _. simpl.
  pose proof (exp_pos x).
  assert (0 <= rsum (map exp xs)); [|lra].
  apply rsum_nonneg, Forall_map, Forall_forall. intros y _. simpl.
  left. apply exp_pos.
Qed.

Lemma softmax_length (xs : list R) : length (softmax xs) = length xs.
Proof. unfold softmax. apply length_map. Qed.

Lemma softmax_lookup (xs : list R) (i : nat) (x : R) :
  xs !! i = Some x -> softmax xs !! i = Some (exp x / rsum (map exp xs)).
Proof. intros Hx. unfold softmax. rewrite list_lookup_fmap, Hx. reflexivity. Qed.

Lemma softmax_pos (xs : list R) : Forall (Rlt 0) (softmax xs).
Proof.
  unfold softmax. apply Forall_map, Forall_forall. intros x Hx. simpl.
  apply Rdiv_lt_0_compat; [apply exp_pos|].
  apply rsum_exp_pos. intros ->. inversion Hx.
Qed.

Lemma softmax_sum (xs : list R) : xs <> [] -> rsum (softmax xs) = 1.
Proof.
  intros Hne. unfold softmax.
  rewrite <- (map_map exp (fun e => e / rsum (map exp xs))).
  rewrite rsum_div. pose proof (rsum_exp_pos xs Hne). field. lra.
Qed.

End TensorFacts.

(** ** The mixer *)

Module MixerSpec.
Import Tensor TensorFacts Mixer.

Lemma Forall2_Rle_refl (xs : list R) : Forall2 Rle xs xs.
Proof. induction xs; constructor; [lra | assumption]. Qed.

Lemma Forall2_Rle_insert (xs : list R) (i : nat) (q q' : R) :
  xs !! i = Some q -> q <= q' -> Forall2 Rle xs (<[i:=q']> xs).
Proof.
  intros Hi Hq. rewrite <- (list_insert_id xs i q Hi) at 1.
  apply Forall2_insert; [apply Forall2_Rle_refl | exact Hq].
Qed.

(** The hidden layer grows with the per-agent values: its weights are
    absolute values. *)
Lemma hidden_mono (w1 : list (list R)) (b1 qs qs' : list R) (p : nat) :
  Forall (Forall (Rle 0)) w1 -> Forall2 Rle qs qs' ->
  Forall2 Rle
    (map elu (zip_with Rplus (map (fun e => dot qs (col e w1)) (seq 0 p)) b1))
    (map elu (zip_with Rplus (map (fun e => dot qs' (col e w1)) (seq 0 p)) b1)).
Proof.
  intros Hw Hq. apply Forall2_fmap. revert b1.
  induction (seq 0 p) as [|e es IH]; intros b1; simpl; [constructor|].
  destruct b1 as [|b b1]; [constructor|]. constructor; [|apply IH].
  apply elu_mono. apply Rplus_le_compat_r.
  apply dot_mono_l; [exact Hq | apply col_nonneg, Hw].
Qed.

Lemma abs_rows_nonneg (l : Linear) (xs : list (list R)) :
  Forall (Forall (Rle 0)) (map (fun x => map Rabs (linear l x)) xs).
Proof. apply Forall_map, Forall_forall. intros x _. apply map_Rabs_nonneg. Qed.

Lemma mix_mono (self : QMixer) (qs qs' : list R) (mi : list (list R)) :
  Forall2 Rle qs qs' -> mix self qs mi <= mix self qs' mi.
Proof.
  intros Hq. unfold mix. apply Rplus_le_compat_r. apply dot_mono_l.
  - apply hidden_mono; [apply abs_rows_nonneg | exact Hq].
  - apply mean_dim0_nonneg, abs_rows_nonneg.
Qed.

Lemma zip_with3_Forall2 {A B C D : Type} (P : A -> A -> Prop)
    (Q : D -> D -> Prop) (f : A -> B -> C -> D)
    (xs xs' : list A) (ys : list B) (zs : list C) :
  (forall x x' y z, P x x' -> Q (f x y z) (f x' y z)) ->
  Forall2 P xs xs' ->
  Forall2 Q (zip_with3 f xs ys zs) (zip_with3 f xs' ys zs).
Proof.
  intros Hf Hxs. unfold zip_with3. generalize (zip ys zs) as yzs.
  induction Hxs as [|x x' xs xs' Hx Hxs IH]; intros [|yz yzs]; simpl;
    constructor; [apply Hf, Hx | apply IH].
Qed.

Lemma forward_bt_mono (self : QMixer) (qs qs' s : list R) (r : list (list R)) :
  Forall2 Rle qs qs' -> forward_bt self qs s r <= forward_bt self qs' s r.
Proof. apply mix_mono. Qed.

Lemma forward_mono (self : QMixer) (qs qs' ss : list (list (list R)))
    (rs : list (list (list (list R)))) (y : list (list (list R))) :
  Forall2 (Forall2 (Forall2 Rle)) qs qs' -> forward self qs ss rs = Return y ->
  exists y', forward self qs' ss rs = Return y' /\
             Forall2 (Forall2 (Forall2 Rle)) y y'.
Proof.
  intros Hq. unfold forward.
  destruct (state_timestep_number self); [discriminate|].
  intros [= <-]. eexists; split; [reflexivity|].
  eapply zip_with3_Forall2; [|exact Hq].
  intros q q' s r Hqq. eapply zip_with3_Forall2; [|exact Hqq].
  intros a a' b c Ha. constructor; [|constructor].
  apply forward_bt_mono, Ha.
Qed.

(** C3.  Monotonicity of the mixer: with the state, the task
    representation and the weights fixed, raising the value of one agent
    in one (batch, time) slot, all other values kept, the forward pass
    still returns and no entry of [q_tot] decreases. *)
Theorem mixer_monotone_in_each_agent_value (self : QMixer)
    (agent_qs states : list (list (list R)))
    (task_repre_mu : list (list (list (list R))))
    (b t a : nat) (qs_b : list (list R)) (qs_bt : list R) (q q' : R)
    (q_tot : list (list (list R))) :
  agent_qs !! b = Some qs_b -> qs_b !! t = Some qs_bt -> qs_bt !! a = Some q ->
  q <= q' ->
  forward self agent_qs states task_repre_mu = Return q_tot ->
  exists q_tot',
    forward self (<[b := <[t := <[a := q']> qs_bt]> qs_b]> agent_qs)
            states task_repre_mu = Return q_tot' /\
    Forall2 (Forall2 (Forall2 Rle)) q_tot q_tot'.
Proof.
  intros Hb Ht Ha Hq. apply forward_mono.
  rewrite <- (list_insert_id agent_qs b qs_b Hb) at 1.
  apply Forall2_insert.
  - clear. induction agent_qs as [|x xs IH]; constructor; [|exact IH].
    clear. induction x; constructor; [apply Forall2_Rle_refl | assumption].
  - rewrite <- (list_insert_id qs_b t qs_bt Ht) at 1.
    apply Forall2_insert.
    + clear. induction qs_b; constructor; [apply Forall2_Rle_refl | assumption].
    + eapply Forall2_Rle_insert; eassumption.
Qed.

Lemma mixer_monotone_witness :
  exists q_tot q_tot',
    forward (Examples.ex_mixer false) [[ [1; 2] ]] [[Examples.ex_state]]
            [[Examples.ex_repre]] = Return q_tot /\
    forward (Examples.ex_mixer false) [[ [3; 2] ]] [[Examples.ex_state]]
            [[Examples.ex_repre]] = Return q_tot' /\
    Forall2 (Forall2 (Forall2 Rle)) q_tot q_tot'.
Proof.
  eexists. 
  edestruct (mixer_monotone_in_each_agent_value (Examples.ex_mixer false)
              [[ [1; 2] ]] [[Examples.ex_state]] [[Examples.ex_repre]]
              0 0 0 [[1; 2]] [1; 2] 1 3) as (q_tot' & Hf & Hle);
    [reflexivity | reflexivity | reflexivity | lra | reflexivity |].
  exists q_tot'. split; [reflexivity|]. split; [exact Hf | exact Hle].
Defined.

(** C8.  In the timestep mode of the decomposer the forward pass raises
    its exception whatever the three tensors are, and so returns no
    [q_tot]. *)
Theorem forward_raises_in_timestep_mode (self : QMixer)
    (agent_qs states : list (list (list R)))
    (task_repre_mu : list (list (list (list R)))) :
  dec_state_timestep_number (decomposer self) = true ->
  forward self agent_qs states task_repre_mu
    = Raise (Exception "Not Implemented") /\
  forall q_tot, forward self agent_qs states task_repre_mu <> Return q_tot.
Proof.
  intros Hts. unfold forward, state_timestep_number. rewrite Hts.
  split; [reflexivity | discriminate].
Qed.

Lemma forward_raises_in_timestep_mode_witness :
  forward (Examples.ex_mixer true) [[ [1; 2] ]] [[Examples.ex_state]]
          [[Examples.ex_repre]] = Raise (Exception "Not Implemented") /\
  forall q_tot,
    forward (Examples.ex_mixer true) [[ [1; 2] ]] [[Examples.ex_state]]
            [[Examples.ex_repre]] <> Return q_tot.
Proof.
  apply (forward_raises_in_timestep_mode (Examples.ex_mixer true)).
  reflexivity.
Defined.

(** Outside that mode the forward pass returns, one value per slot. *)
Lemma forward_returns (self : QMixer) (agent_qs states : list (list (list R)))
    (task_repre_mu : list (list (list (list R)))) :
  state_timestep_number self = false ->
  returns (forward self agent_qs states task_repre_mu).
Proof. intros Hts. unfold forward. rewrite Hts. eexists; reflexivity. Qed.

(** *** Permutations of the per-agent values *)

Lemma cat_last_replicate (n : nat) (x y : list R) :
  cat_last (replicate n x) (replicate n y) = replicate n (x ++ y).
Proof. unfold cat_last. induction n; simpl; [reflexivity | f_equal; assumption]. Qed.

Lemma col_replicate (e n : nat) (w : list R) :
  col e (replicate n w) = replicate n (nth e w 0).
Proof. unfold col. induction n; simpl; [reflexivity | f_equal; assumption]. Qed.

Lemma dot_replicate (qs : list R) (c : R) :
  dot qs (replicate (length qs) c) = rsum qs * c.
Proof.
  unfold dot. induction qs as [|q qs IH]; simpl; [lra | rewrite IH; lra].
Qed.

(** With the same row of weights for every agent, the mixer reads the
    per-agent values through their sum. *)
Lemma mix_replicate_sum (self : QMixer) (qs qs' x : list R) :
  length qs = length qs' -> rsum qs = rsum qs' ->
  mix self qs (replicate (length qs) x) = mix self qs' (replicate (length qs) x).
Proof.
  intros Hlen Hsum. unfold mix. f_equal. f_equal. f_equal. f_equal.
  apply map_ext. intros e.
  rewrite fmap_replicate, col_replicate.
  rewrite dot_replicate. rewrite Hlen, dot_replicate. rewrite Hsum. reflexivity.
Qed.

Lemma forward_bt_permutation (self : QMixer) (qs qs' s v : list R) :
  length qs = n_agents self -> Permutation qs qs' ->
  forward_bt self qs s (replicate (n_agents self) v)
  = forward_bt self qs' s (replicate (n_agents self) v).
Proof.
  intros Hlen Hperm. unfold forward_bt, mixing_input.
  rewrite cat_last_replicate, <- Hlen.
  apply mix_replicate_sum; [apply Permutation_length, Hperm | apply rsum_perm, Hperm].
Qed.

Lemma zip_with3_ext_Forall {A B C D : Type} (P : A -> A -> Prop)
    (Pa : A -> Prop) (Pc : C -> Prop) (f : A -> B -> C -> D)
    (xs xs' : list A) (ys : list B) (zs : list C) :
  (forall x x' y z, P x x' -> Pa x -> Pc z -> f x y z = f x' y z) ->
  Forall2 P xs xs' -> Forall Pa xs -> Forall Pc zs ->
  zip_with3 f xs ys zs = zip_with3 f xs' ys zs.
Proof.
  intros Hf Hxs. unfold zip_with3. revert ys zs.
  induction Hxs as [|x x' xs xs' Hx Hxs IH]; intros ys zs Ha Hc; [reflexivity|].
  destruct ys as [|y ys]; [reflexivity|]. destruct zs as [|z zs]; [reflexivity|].
  inversion Ha; subst. inversion Hc; subst. simpl. f_equal.
  - apply Hf; assumption.
  - apply (IH ys zs); assumption.
Qed.

(** C10.  When the rows of the task representation are the same for all
    the agents of a slot, permuting the per-agent values of the slots
    leaves the result of the forward pass unchanged. *)
Theorem mixer_permutation_invariant (self : QMixer)
    (agent_qs agent_qs' states : list (list (list R)))
    (task_repre_mu : list (list (list (list R)))) :
  Forall2 (Forall2 (@Permutation R)) agent_qs agent_qs' ->
  Forall (Forall (fun qs => length qs = n_agents self)) agent_qs ->
  Forall (Forall (fun r => exists v, r = replicate (n_agents self) v))
         task_repre_mu ->
  forward self agent_qs states task_repre_mu
  = forward self agent_qs' states task_repre_mu.
Proof.
  intros Hperm Hlen Hrep. unfold forward.
  destruct (state_timestep_number self); [reflexivity|]. f_equal.
  eapply zip_with3_ext_Forall; [|exact Hperm|exact Hlen|exact Hrep].
  intros q q' s r Hq Hl Hr.
  eapply zip_with3_ext_Forall; [|exact Hq|exact Hl|exact Hr].
  intros a a' b c Ha Hla [v ->]. simpl. f_equal.
  apply forward_bt_permutation; assumption.
Qed.

Lemma mixer_permutation_invariant_witness :
  forward (Examples.ex_mixer false) [[ [1; 2] ]] [[Examples.ex_state]]
          [[Examples.ex_repre]]
  = forward (Examples.ex_mixer false) [[ [2; 1] ]] [[Examples.ex_state]]
            [[Examples.ex_repre]].
Proof.
  apply (mixer_permutation_invariant (Examples.ex_mixer false)).
  - repeat constructor.
  - repeat constructor.
  - repeat constructor. exists [1]. reflexivity.
Defined.

(** *** The attention step *)

Lemma nth_map_seq {A : Type} (f : nat -> A) (n j : nat) (d : A) :
  (j < n)%nat -> nth j (map f (seq 0 n)) d = f j.
Proof.
  intros Hj. rewrite (nth_indep _ d (f 0%nat)) by (rewrite length_map, length_seq; exact Hj).
  rewrite (map_nth f (seq 0 n) 0%nat j). rewrite seq_nth by exact Hj. reflexivity.
Qed.

Lemma map_nth_seq (L : list R) :
  map (fun i => nth i L 0) (seq 0 (length L)) = L.
Proof.
  induction L as [|x L IH]; [reflexivity|].
  simpl. f_equal. rewrite <- seq_shift, map_map. exact IH.
Qed.

Lemma nth_col (a j : nat) (K : list (list R)) :
  nth j (col a K) 0 = nth a (nth j K []) 0.
Proof.
  unfold col. revert j. induction K as [|k K IH]; intros j; simpl.
  - destruct j, a; reflexivity.
  - destruct j; [reflexivity | apply IH].
Qed.

Lemma linear_length (l : Linear) (x : list R) (n : nat) :
  length (weight l) = n -> length (bias l) = n -> length (linear l x) = n.
Proof. intros Hw Hb. unfold linear. rewrite length_zip_with. lia. Qed.

(** Column [j] of the transposed keys is the key of entity [j]. *)
Lemma col_proj_key (self : QMixer) (es : list (list R)) (j : nat) :
  length (weight (key self)) = attn_embed_dim self ->
  length (bias (key self)) = attn_embed_dim self ->
  (j < length es)%nat ->
  col j (transpose (attn_embed_dim self) (map (linear (key self)) es))
  = linear (key self) (nth j es []).
Proof.
  intros Hw Hb Hj. unfold transpose, col at 1. rewrite map_map.
  erewrite map_ext; [|intros a; apply nth_col].
  rewrite (nth_indep _ [] (linear (key self) [])) by (rewrite length_map; exact Hj).
  rewrite map_nth.
  rewrite <- (linear_length (key self) (nth j es []) _ Hw Hb) at 1.
  apply map_nth_seq.
Qed.

Lemma col_energy (self : QMixer) (es : list (list R)) (j : nat) :
  length es = n_entities self ->
  length (weight (key self)) = attn_embed_dim self ->
  length (bias (key self)) = attn_embed_dim self ->
  (j < n_entities self)%nat ->
  col j (energy self es)
  = map (fun e_i => dot (linear (query self) e_i)
                        (linear (key self) (nth j es []))) es.
Proof.
  intros Hn Hw Hb Hj. unfold energy, matmul, col at 1.
  rewrite !map_map. apply map_ext. intros e_i.
  rewrite nth_map_seq by exact Hj.
  rewrite col_proj_key by (assumption || lia). reflexivity.
Qed.

Lemma energy_length (self : QMixer) (es : list (list R)) :
  length (energy self es) = length es.
Proof. unfold energy, matmul. rewrite !length_map. reflexivity. Qed.

(** Column [j] of the scores is the softmax of column [j] of the energy. *)
Lemma col_attn_score (self : QMixer) (es : list (list R)) (j : nat) :
  (j < n_entities self)%nat ->
  col j (attn_score self es) = softmax (col j (energy self es)).
Proof.
  intros Hj. unfold attn_score, softmax_dim1, col at 1. rewrite map_map.
  transitivity (map (fun i => nth i (softmax (col j (energy self es))) 0)
                    (seq 0 (length (energy self es)))).
  { apply map_ext. intros i. rewrite nth_map_seq by exact Hj. reflexivity. }
  replace (length (energy self es))
    with (length (softmax (col j (energy self es)))).
  - apply map_nth_seq.
  - rewrite softmax_length. unfold col. apply length_map.
Qed.

(** C5, as the code has it.  The scores are the plain dot products
    [query(e_i) . key(e_j)], with no scaling; the softmax runs along the
    first axis, the one of the entity [i] whose query enters the score,
    so the weights of each column [j] sum to one; they combine the
    unprojected embeddings [e_i], and the mean over [j] gives one context
    vector of dimension [entity_embed_dim] for the slot. *)
Theorem attention_step (self : QMixer) (es : list (list R)) :
  length es = n_entities self ->
  length (weight (key self)) = attn_embed_dim self ->
  length (bias (key self)) = attn_embed_dim self ->
  let weights j :=
    softmax (map (fun e_i => dot (linear (query self) e_i)
                                 (linear (key self) (nth j es []))) es) in
  attn_out self es
  = map (fun d => mean (map (fun j => dot (col d es) (weights j))
                            (seq 0 (n_entities self))))
        (seq 0 (entity_embed_dim self)) /\
  (es <> [] -> forall j, rsum (weights j) = 1) /\
  length (attn_out self es) = entity_embed_dim self.
Proof.
  intros Hn Hw Hb weights. split; [|split].
  - unfold attn_out, mean_last, matmul, transpose. rewrite !map_map.
    apply map_ext. intros d. f_equal.
    apply map_ext_in. intros j Hj. apply in_seq in Hj.
    rewrite col_attn_score by lia.
    rewrite col_energy by (assumption || lia). reflexivity.
  - intros Hne j. apply softmax_sum. destruct es; [congruence | discriminate].
  - unfold attn_out, mean_last, matmul, transpose.
    rewrite !length_map, length_seq. reflexivity.
Qed.

Lemma attention_step_witness :
  let es := [[0]; [1]; [0]] in
  let weights j :=
    softmax (map (fun e_i => dot (linear (query (Examples.ex_mixer false)) e_i)
                                 (linear (key (Examples.ex_mixer false))
                                         (nth j es []))) es) in
  attn_out (Examples.ex_mixer false) es
  = map (fun d => mean (map (fun j => dot (col d es) (weights j)) (seq 0 3)))
        (seq 0 1) /\
  (es <> [] -> forall j, rsum (weights j) = 1) /\
  length (attn_out (Examples.ex_mixer false) es) = 1%nat.
Proof.
  apply (attention_step (Examples.ex_mixer false) [[0]; [1]; [0]]);
    reflexivity.
Defined.

(** Replaces the arguments of [exp] in [H] by their values 0 or 1. *)
Ltac exp_args_in H :=
  repeat match type of H with
         | context [exp ?a] =>
             lazymatch a with
             | 0 => fail
             | 1 => fail
             | _ => first [ replace a with 0 in H by lra
                          | replace a with 1 in H by lra ]
             end
         end.

(** C5, as it is worded, fails.  On the embeddings 0, 1, 0, with the
    query that copies the embedding and the constant key 1, the code
    gives the context e/(2+e) and the worded attention (softmax along
    the key axis) gives 1/3; and with queries and keys of dimension 4
    the scores of the code are not the scaled ones. *)
Lemma attention_not_as_worded :
  attn_out (Examples.ex_mixer false) [[0]; [1]; [0]]
  <> attn_out_spec (Examples.ex_mixer false) [[0]; [1]; [0]] /\
  energy Examples.ex_mixer4 [[0]; [1]; [0]]
  <> scaled_energy Examples.ex_mixer4 [[0]; [1]; [0]].
Proof.
  split; intros Heq.
  - apply (f_equal (fun l => nth 0 l 0)) in Heq.
    cbv [attn_out attn_out_spec mean_last matmul transpose attn_score
         softmax_dim1 energy scaled_energy mean_dim0 col map seq nth
         Examples.ex_mixer n_entities n_agents n_enemies decomposer
         Examples.ex_decomposer dec_n_enemies entity_embed_dim attn_embed_dim
         query key linear weight bias zip_with dot rsum foldr softmax mean
         length Nat.add] in Heq.
    simpl INR in Heq. rewrite sqrt_1 in Heq. exp_args_in Heq.
    rewrite exp_0 in Heq.
    pose proof (exp_increasing 0 1 ltac:(lra)) as HE. rewrite exp_0 in HE.
    revert HE Heq. generalize (exp 1). intros E HE Heq.
    match type of Heq with
    | ?l = ?r =>
        assert (Hl : l = E / (2 + E)) by (field; lra);
        assert (Hr : r = 1 / 3) by (field; lra);
        rewrite Hl, Hr in Heq
    end.
    assert (E = 1 / 3 * (2 + E)) by (rewrite <- Heq; field; lra). lra.
  - apply (f_equal (fun l => nth 0 (nth 1 l []) 0)) in Heq.
    cbv [energy scaled_energy matmul transpose col map seq nth
         Examples.ex_mixer4 n_entities n_agents n_enemies decomposer
         Examples.ex_decomposer dec_n_enemies attn_embed_dim
         query key linear weight bias zip_with dot rsum foldr Nat.add] in Heq.
    match type of Heq with
    | ?l = _ => replace l with 1 in Heq by lra
    end.
    assert (Hs : sqrt (INR 4) * sqrt (INR 4) = INR 4)
      by (apply sqrt_sqrt, pos_INR).
    simpl INR in *.
    assert (Hne : sqrt (1 + 1 + 1 + 1) <> 0) by (intros H0; rewrite H0 in Hs; lra).
    assert (H1 : sqrt (1 + 1 + 1 + 1) = 1).
    { apply (Rmult_eq_compat_r (sqrt (1 + 1 + 1 + 1))) in Heq.
      unfold Rdiv in Heq. rewrite Rmult_assoc, Rinv_l in Heq by exact Hne. lra. }
    rewrite H1 in Hs. lra.
Qed.

End MixerSpec.

(** ** Rows of action probabilities *)

Module RowFacts.
Import Tensor TensorFacts ActionRow.

Lemma zsum_count_avail (avail : list Z) :
  is_mask avail -> IZR (zsum avail) = INR (count_avail avail).
Proof.
  unfold is_mask, count_avail. induction 1 as [|a avail Ha _ IH]; [reflexivity|].
  simpl zsum. rewrite plus_IZR, IH. rewrite filter_cons.
  destruct Ha as [-> | ->].
  - rewrite decide_False by lia. lra.
  - rewrite decide_True by lia. rewrite length_cons, S_INR. lra.
Qed.

Lemma count_avail_pos (avail : list Z) (j : nat) :
  avail !! j = Some 1%Z -> (0 < count_avail avail)%nat.
Proof.
  unfold count_avail. revert j.
  induction avail as [|a avail IH]; intros j Hj; [destruct j; discriminate|].
  rewrite filter_cons. destruct j as [|j]; simpl in Hj.
  - injection Hj as ->. rewrite decide_True by lia. simpl. lia.
  - specialize (IH j Hj). destruct (decide (a <> 0%Z)); simpl; lia.
Qed.

Lemma sum_avail_unavail (row : list R) (avail : list Z) :
  length row = length avail ->
  sum_avail row avail + sum_unavail row avail = rsum row.
Proof.
  unfold sum_avail, sum_unavail. revert avail.
  induction row as [|p row IH]; intros [|a avail] Hlen; simpl in *;
    try discriminate; [lra|].
  injection Hlen as Hlen. specialize (IH avail Hlen).
  destruct (a =? 0)%Z; lra.
Qed.

Lemma sum_unavail_nonneg (row : list R) (avail : list Z) :
  Forall (Rlt 0) row -> 0 <= sum_unavail row avail.
Proof.
  unfold sum_unavail. intros Hrow. apply rsum_nonneg. revert avail.
  induction Hrow as [|p row Hp _ IH]; intros [|a avail]; simpl; constructor;
    [destruct (a =? 0)%Z; lra | apply IH].
Qed.

(** The row of the training mode, from the softmax row [s]: the blend
    with the uniform weight [c], and then zero where unavailable. *)
Lemma sum_avail_floor (eps c : R) (s : list R) (avail : list Z) :
  length s = length avail ->
  sum_avail (zip_with (fun p a => if (a =? 0)%Z then 0 else p)
               (map (fun p => (1 - eps) * p + c) s) avail) avail
  = (1 - eps) * sum_avail s avail + c * INR (count_avail avail).
Proof.
  unfold sum_avail, count_avail. revert avail.
  induction s as [|p s IH]; intros [|a avail] Hlen; simpl in *;
    try discriminate; [lra|].
  injection Hlen as Hlen. rewrite (IH avail Hlen). rewrite filter_cons.
  destruct (Z.eqb_spec a 0) as [->|Hne].
  - rewrite decide_False by lia. lra.
  - rewrite decide_True by exact Hne. rewrite length_cons, S_INR. lra.
Qed.

(** In a softmax row an entry is at most the ratio of its exponential to
    the exponential of any entry. *)
Lemma softmax_ratio (xs : list R) (j k : nat) (x y : R) :
  xs !! j = Some x -> xs !! k = Some y ->
  exp x / rsum (map exp xs) <= exp (x - y).
Proof.
  intros Hj Hk.
  assert (Hy : exp y <= rsum (map exp xs)).
  { clear Hj. revert k Hk. induction xs as [|z xs IH]; intros k Hk;
      [destruct k; discriminate|].
    simpl. destruct k as [|k]; simpl in Hk.
    - injection Hk as ->.
      assert (0 <= rsum (map exp xs)); [|lra].
      apply rsum_nonneg, Forall_map, Forall_forall. intros w _. simpl.
      left. apply exp_pos.
    - specialize (IH k Hk). pose proof (exp_pos z). lra. }
  unfold Rminus. rewrite exp_plus, exp_Ropp.
  pose proof (exp_pos x). pose proof (exp_pos y).
  apply Rmult_le_compat_l; [lra|].
  apply Rinv_le_contravar; lra.
Qed.

End RowFacts.

(** ** The controller *)

Module MACSpec.
Import Tensor TensorFacts MAC.

Section WithNetworks.
Context `{Networks}.

(** *** Task representations: the accessor *)

(** C7.  With [require_grad=True] the accessor fails on its assertion,
    for any controller and any task; with [require_grad=False] it returns
    the stored vector of a task, once per agent of the task. *)
Theorem get_task_repres_contract (self : XTransMAC) (task : string) :
  get_task_repres self task true
  = Raise (AssertionError "Not train task repre in mt training phase!") /\
  forall (repre : list R) (n : nat),
    task2repre self !! task = Some repre ->
    task2n_agents self !! task = Some n ->
    get_task_repres self task false = Return (replicate n repre).
Proof.
  split; [reflexivity|]. intros repre n Hr Hn.
  unfold get_task_repres, getitem. rewrite Hr, Hn. reflexivity.
Qed.

(** *** The dynamic model and the hidden state *)

Lemma forward_depends_on (self self' : XTransMAC) (ep_batch : EpisodeBatch)
    (t : nat) (task : string) (test_mode : bool) :
  task2args self' = task2args self ->
  task2n_agents self' = task2n_agents self ->
  main_args self' = main_args self ->
  agent_output_type self' = agent_output_type self ->
  action_selector self' = action_selector self ->
  task2repre self' = task2repre self ->
  agent self' = agent self ->
  hidden_states self' = hidden_states self ->
  (forward self' ep_batch t task test_mode).2
  = (forward self ep_batch t task test_mode).2 /\
  hidden_states (forward self' ep_batch t task test_mode).1
  = hidden_states (forward self ep_batch t task test_mode).1 /\
  agent (forward self' ep_batch t task test_mode).1
  = agent (forward self ep_batch t task test_mode).1.
Proof.
  intros Ha Hn Hm Ho Hs Hr Hg Hh.
  unfold forward, _build_inputs, get_task_repres, policy.
  rewrite Ha, Hn, Hr, Hg, Hh.
  destruct (_ ≫= _) as [[[agent_inputs n_agents] task_repre]|e]; simpl;
    [|auto].
  destruct (agent_call _ _ _ _ _) as [[agent_outs hidden] agent']. simpl.
  rewrite Ho, Hm, Hs. auto.
Qed.

(** C9.  The forward path of the dynamic encoder and decoder leaves the
    recurrent hidden state of the controller as it found it, whether it
    returns or raises; a later [forward] gives the same outputs and the
    same next hidden state as it would have given without that call. *)
Theorem task_encoder_forward_keeps_hidden (self : XTransMAC)
    (batch : EpisodeBatch) (t : nat) (task : string) :
  let self' := (task_encoder_forward self batch t task).1 in
  hidden_states self' = hidden_states self /\
  forall (ep_batch : EpisodeBatch) (t' : nat) (task' : string)
         (test_mode : bool),
    (forward self' ep_batch t' task' test_mode).2
    = (forward self ep_batch t' task' test_mode).2 /\
    hidden_states (forward self' ep_batch t' task' test_mode).1
    = hidden_states (forward self ep_batch t' task' test_mode).1.
Proof.
  assert (Hframe :
    let self' := (task_encoder_forward self batch t task).1 in
    task2args self' = task2args self /\
    task2n_agents self' = task2n_agents self /\
    main_args self' = main_args self /\
    agent_output_type self' = agent_output_type self /\
    action_selector self' = action_selector self /\
    task2repre self' = task2repre self /\
    agent self' = agent self /\
    hidden_states self' = hidden_states self).
  { unfold task_encoder_forward.
    destruct (get_task_repres self task false) as [task_repre|e];
      [|simpl; tauto].
    destruct (encoder_call _ _ _ _ _ _) as [[encoded_latent bs] encoder'].
    destruct (getitem _ task) as [decoder|e]; [|simpl; tauto].
    destruct (decoder_call _ _ _) as [[[next_obs next_state] reward] decoder'].
    simpl. tauto. }
  simpl in *. destruct Hframe as (Ha & Hn & Hm & Ho & Hs & Hr & Hg & Hh).
  split; [exact Hh|]. intros ep_batch t' task' test_mode.
  pose proof (forward_depends_on self _ ep_batch t' task' test_mode
                Ha Hn Hm Ho Hs Hr Hg Hh) as (H1 & H2 & _).
  split; assumption.
Qed.

(** *** Persistence *)

Lemma bundle_paths_differ (path : string) :
  path +:+ "/agent.th" <> path +:+ "/dynamic_encoder.th".
Proof.
  induction path as [|c path IH]; [discriminate|].
  intros Heq. apply IH. cbn in Heq. injection Heq. trivial.
Qed.

(** [save_models] writes the two shared networks, and nothing else. *)
Lemma save_models_writes (self : XTransMAC) (fs : Files) (path : string) :
  save_models self fs path !! (path +:+ "/agent.th") = Some (agent self) /\
  save_models self fs path !! (path +:+ "/dynamic_encoder.th")
  = Some (dynamic_encoder self) /\
  forall p, p <> path +:+ "/agent.th" -> p <> path +:+ "/dynamic_encoder.th" ->
            save_models self fs path !! p = fs !! p.
Proof.
  unfold save_models. pose proof (bundle_paths_differ path) as Hne.
  split; [|split].
  - rewrite lookup_insert_ne by congruence. apply lookup_insert_eq.
  - apply lookup_insert_eq.
  - intros p H1 H2. rewrite !lookup_insert_ne by congruence. reflexivity.
Qed.

(** [load_state], the copy between two controllers, does restore both. *)
Lemma load_state_restores_both (self other_mac : XTransMAC) :
  agent (load_state self other_mac) = agent other_mac /\
  dynamic_encoder (load_state self other_mac) = dynamic_encoder other_mac /\
  task2dynamic_decoder (load_state self other_mac) = task2dynamic_decoder self /\
  task2repre (load_state self other_mac) = task2repre self.
Proof. repeat split. Qed.

(** C6, on the code.  After [save_models] of a controller wrote its
    bundle, [load_models] on a controller restores the weights of the
    agent and then fails on the attribute [dynmaic_encoder], which no
    controller has: the weights of the dynamic encoder stay the old
    ones. *)
Theorem load_models_misses_encoder (self other : XTransMAC) (fs : Files)
    (path : string) :
  let fs' := save_models self fs path in
  load_models other fs' path
  = (set_agent other (agent self), Raise (AttributeError "dynmaic_encoder")) /\
  dynamic_encoder (load_models other fs' path).1 = dynamic_encoder other.
Proof.
  destruct (save_models_writes self fs path) as (Ha & _ & _).
  simpl. unfold load_models, th_load. rewrite Ha. simpl. split; reflexivity.
Qed.

(** *** The policy rows (lines 76-97 of [forward]) *)

(** With policy logits and the mask before the softmax, row [i] of the
    result, from row [i] of the outputs of the agent and row [i] of the
    reshaped availabilities. *)
Lemma policy_row_masked (self : XTransMAC) (agent_outs : list (list R))
    (avail : list (list (list Z))) (test_mode : bool) (i : nat)
    (logits : list R) (av : list Z) :
  agent_output_type self = "pi_logits" ->
  default true (mask_before_softmax (main_args self)) = true ->
  agent_outs !! i = Some logits -> concat avail !! i = Some av ->
  let s :=
    softmax (zip_with (fun x a => if (a =? 0)%Z then -1e10 else x) logits av) in
  policy self agent_outs avail test_mode !! i
  = Some (if test_mode then s
          else zip_with (fun p a => if (a =? 0)%Z then 0 else p)
                 (map (fun p => (1 - epsilon (action_selector self)) * p
                                + 1 * epsilon (action_selector self)
                                  / IZR (zsum av)) s) av).
Proof.
  intros Hpi Hmask Hi Hav s. unfold policy, fill_where_zero.
  rewrite decide_True by exact Hpi. rewrite Hmask.
  destruct test_mode; simpl.
  - rewrite list_lookup_fmap, lookup_zip_with, Hi, Hav. reflexivity.
  - rewrite !lookup_zip_with, list_lookup_fmap, lookup_zip_with, Hi, Hav.
    reflexivity.
Qed.

(** Without the mask the availabilities are not read. *)
Lemma policy_row_unmasked (self : XTransMAC) (agent_outs : list (list R))
    (avail : list (list (list Z))) (i : nat) (logits : list R) :
  agent_output_type self = "pi_logits" ->
  default true (mask_before_softmax (main_args self)) = false ->
  agent_outs !! i = Some logits ->
  policy self agent_outs avail false !! i
  = Some (map (fun p => (1 - epsilon (action_selector self)) * p
                        + 1 * epsilon (action_selector self)
                          / INR (length (softmax logits)))
              (softmax logits)).
Proof.
  intros Hpi Hmask Hi. unfold policy.
  rewrite decide_True by exact Hpi. rewrite Hmask. simpl.
  rewrite !list_lookup_fmap, Hi. reflexivity.
Qed.

Lemma masked_lookup (logits : list R) (av : list Z) (j : nat) (a : Z) :
  length logits = length av -> av !! j = Some a ->
  exists x, logits !! j = Some x /\
    zip_with (fun x a => if (a =? 0)%Z then -1e10 else x) logits av !! j
    = Some (if (a =? 0)%Z then -1e10 else x).
Proof.
  intros Hlen Ha.
  destruct (lookup_lt_is_Some_2 logits j) as [x Hx].
  { rewrite Hlen. eapply lookup_lt_Some, Ha. }
  exists x. split; [exact Hx|].
  rewrite lookup_zip_with, Hx, Ha. reflexivity.
Qed.

(** C1, as the code has it.  With policy logits and the mask before the
    softmax, on a row with an available action.  In test mode the row is
    the softmax of the masked logits: it sums to 1 over all the actions,
    the probability of an unavailable action is not set to zero, it is
    only bounded by [exp (-1e10 - x)] for each logit [x] of an available
    action, and the available actions sum to 1 minus the mass [u] of the
    unavailable ones.  In training mode an unavailable action has
    probability 0, and the available actions sum to
    [1 - (1 - epsilon) * u]. *)
Theorem policy_distribution (self : XTransMAC) (agent_outs : list (list R))
    (avail : list (list (list Z))) (i : nat) (logits : list R) (av : list Z) :
  agent_output_type self = "pi_logits" ->
  default true (mask_before_softmax (main_args self)) = true ->
  agent_outs !! i = Some logits -> concat avail !! i = Some av ->
  length logits = length av -> ActionRow.is_mask av ->
  (exists k, av !! k = Some 1%Z) ->
  exists row_test row_train,
    policy self agent_outs avail true !! i = Some row_test /\
    policy self agent_outs avail false !! i = Some row_train /\
    rsum row_test = 1 /\
    (forall j, av !! j = Some 0%Z ->
       exists p, row_test !! j = Some p /\ 0 <= p /\
         forall k x, av !! k = Some 1%Z -> logits !! k = Some x ->
                     p <= exp (-1e10 - x)) /\
    ActionRow.sum_avail row_test av = 1 - ActionRow.sum_unavail row_test av /\
    (forall j, av !! j = Some 0%Z -> row_train !! j = Some 0) /\
    ActionRow.sum_avail row_train av
    = 1 - (1 - epsilon (action_selector self)) * ActionRow.sum_unavail row_test av.
Proof.
  intros Hpi Hmask Hi Hav Hlen Hm [k0 Hk0].
  pose proof (policy_row_masked self agent_outs avail true i logits av
                Hpi Hmask Hi Hav) as Htest.
  pose proof (policy_row_masked self agent_outs avail false i logits av
                Hpi Hmask Hi Hav) as Htrain.
  simpl in Htest, Htrain.
  set (m := zip_with (fun x a => if (a =? 0)%Z then -1e10 else x) logits av) in *.
  assert (Hmlen : length m = length av)
    by (unfold m; rewrite length_zip_with; lia).
  assert (Hslen : length (softmax m) = length av)
    by (rewrite softmax_length; exact Hmlen).
  assert (Hne : m <> []).
  { intros Hnil. rewrite Hnil in Hmlen. simpl in Hmlen.
    apply lookup_lt_Some in Hk0. lia. }
  assert (Hsplit : ActionRow.sum_avail (softmax m) av
                   = 1 - ActionRow.sum_unavail (softmax m) av).
  { pose proof (RowFacts.sum_avail_unavail (softmax m) av Hslen) as Hs.
    rewrite (softmax_sum m Hne) in Hs. lra. }
  eexists _, _. split; [exact Htest|]. split; [exact Htrain|].
  split; [apply softmax_sum, Hne|]. split; [|split; [exact Hsplit|split]].
  - intros j Hj.
    destruct (masked_lookup logits av j 0%Z Hlen Hj) as (xj & _ & Hmj).
    simpl in Hmj. fold m in Hmj.
    eexists. split; [apply softmax_lookup, Hmj|]. split.
    + left. apply Rdiv_lt_0_compat; [apply exp_pos | apply rsum_exp_pos, Hne].
    + intros k x Hk Hx.
      destruct (masked_lookup logits av k 1%Z Hlen Hk) as (x' & Hx' & Hmk).
      simpl in Hmk. fold m in Hmk. rewrite Hx in Hx'. injection Hx' as <-.
      eapply RowFacts.softmax_ratio; eassumption.
  - intros j Hj.
    destruct (lookup_lt_is_Some_2 (softmax m) j) as [p Hp].
    { rewrite Hslen. eapply lookup_lt_Some, Hj. }
    rewrite lookup_zip_with, list_lookup_fmap, Hp, Hj. reflexivity.
  - rewrite RowFacts.sum_avail_floor by exact Hslen.
    rewrite Hsplit, (RowFacts.zsum_count_avail av Hm).
    pose proof (RowFacts.count_avail_pos av k0 Hk0) as Hpos.
    apply lt_0_INR in Hpos. field. lra.
Qed.

(** C2, as the code has it.  In training mode, with policy logits and an
    exploration rate of at most 1: with the mask before the softmax every
    available action gets at least [epsilon] over the number of
    available actions; without it, every action gets at least [epsilon]
    over the number of all actions. *)
Theorem exploration_floor (self : XTransMAC) (agent_outs : list (list R))
    (avail : list (list (list Z))) (i : nat) (logits : list R) :
  agent_output_type self = "pi_logits" ->
  agent_outs !! i = Some logits ->
  epsilon (action_selector self) <= 1 ->
  (default true (mask_before_softmax (main_args self)) = true ->
   forall av, concat avail !! i = Some av -> length logits = length av ->
     ActionRow.is_mask av ->
     exists row, policy self agent_outs avail false !! i = Some row /\
       forall j, av !! j = Some 1%Z ->
         exists p, row !! j = Some p /\
           epsilon (action_selector self) / INR (ActionRow.count_avail av) <= p) /\
  (default true (mask_before_softmax (main_args self)) = false ->
   exists row, policy self agent_outs avail false !! i = Some row /\
     length row = length logits /\
     forall j p, row !! j = Some p ->
       epsilon (action_selector self) / INR (length logits) <= p).
Proof.
  intros Hpi Hi Heps. split.
  - intros Hmask av Hav Hlen Hm.
    pose proof (policy_row_masked self agent_outs avail false i logits av
                  Hpi Hmask Hi Hav) as Htrain.
    simpl in Htrain.
    set (m := zip_with (fun x a => if (a =? 0)%Z then -1e10 else x) logits av) in *.
    eexists. split; [exact Htrain|]. intros j Hj.
    destruct (masked_lookup logits av j 1%Z Hlen Hj) as (x & _ & Hmj).
    fold m in Hmj. apply softmax_lookup in Hmj.
    eexists. split.
    { rewrite lookup_zip_with, list_lookup_fmap, Hmj, Hj. reflexivity. }
    simpl. rewrite (RowFacts.zsum_count_avail av Hm).
    assert (0 < exp x / rsum (map exp m)).
    { apply Rdiv_lt_0_compat; [apply exp_pos|]. apply rsum_exp_pos.
      intros Hnil. rewrite Hnil in Hmj. discriminate. }
    unfold Rdiv in *. nra.
  - intros Hmask.
    pose proof (policy_row_unmasked self agent_outs avail i logits
                  Hpi Hmask Hi) as Htrain.
    eexists. split; [exact Htrain|]. split.
    { rewrite length_map. apply softmax_length. }
    intros j p Hp. rewrite list_lookup_fmap in Hp.
    destruct (softmax logits !! j) as [q|] eqn:Hq; [|discriminate].
    injection Hp as <-. rewrite softmax_length.
    assert (0 < q).
    { pose proof (softmax_pos logits) as Hall. rewrite Forall_forall in Hall.
      apply Hall. eapply list_elem_of_lookup_2, Hq. }
    unfold Rdiv in *. nra.
Qed.

(** *** From the rows of the policy to the result of [forward] *)

Lemma lookup_reshape_replicate {A : Type} (bs n b a : nat) (P : list A)
    (rows : list A) (row : A) :
  reshape (replicate bs n) P !! b = Some rows -> rows !! a = Some row ->
  P !! (b * n + a)%nat = Some row.
Proof.
  revert b P. induction bs as [|bs IH]; intros b P Hb Ha; [destruct b; discriminate|].
  simpl in Hb. destruct b as [|b]; simpl in Hb.
  - injection Hb as <-. apply lookup_take_Some in Ha. apply Ha.
  - specialize (IH b (drop n P) Hb Ha). rewrite lookup_drop in IH.
    rewrite <- IH. f_equal. lia.
Qed.

Lemma lookup_concat_same_length {A : Type} (n b a : nat) (ls : list (list A))
    (l : list A) (x : A) :
  Forall (fun l => length l = n) ls ->
  ls !! b = Some l -> l !! a = Some x -> concat ls !! (b * n + a)%nat = Some x.
Proof.
  intros Hls. revert b. induction Hls as [|l0 ls Hl0 _ IH]; intros b Hb Ha;
    [destruct b; discriminate|].
  simpl. destruct b as [|b]; simpl in Hb.
  - injection Hb as ->. rewrite lookup_app_l by (eapply lookup_lt_Some, Ha).
    exact Ha.
  - rewrite lookup_app_r by lia. rewrite <- (IH b Hb Ha). f_equal. lia.
Qed.

(** What [forward] returns for agent [a] of batch entry [b] is row
    [b * n_agents + a] of the policy computed from the outputs of the
    agent, and the row of availabilities of that agent is row
    [b * n_agents + a] of the reshaped availabilities. *)
Lemma forward_returns_policy_rows (self self' : XTransMAC)
    (ep_batch : EpisodeBatch) (t : nat) (task : string) (test_mode : bool)
    (res : list (list (list R))) :
  forward self ep_batch t task test_mode = (self', Return res) ->
  exists (agent_outs : list (list R)) (n_agents : nat),
    task2n_agents self !! task = Some n_agents /\
    agent_output_type self' = agent_output_type self /\
    main_args self' = main_args self /\
    action_selector self' = action_selector self /\
    (forall b a rows row,
       res !! b = Some rows -> rows !! a = Some row ->
       policy self' agent_outs (avail_actions ep_batch t) test_mode
         !! (b * n_agents + a)%nat = Some row) /\
    (forall b a avs av,
       Forall (fun l => length l = n_agents) (avail_actions ep_batch t) ->
       avail_actions ep_batch t !! b = Some avs -> avs !! a = Some av ->
       concat (avail_actions ep_batch t) !! (b * n_agents + a)%nat = Some av).
Proof.
  unfold forward.
  destruct (_build_inputs self ep_batch t task) as [agent_inputs|e];
    simpl; [|discriminate].
  destruct (task2n_agents self !! task) as [n_agents|] eqn:Hn;
    unfold get_task_repres, getitem; rewrite Hn; simpl; [|discriminate].
  destruct (n_agents =? 0)%nat; simpl; [discriminate|].
  destruct (task2repre self !! task) as [task_repre|];
    simpl; [|discriminate].
  destruct (agent_call _ _ _ _ _) as [[agent_outs hidden] agent'].
  intros [= <- <-]. exists agent_outs, n_agents.
  repeat split; try reflexivity.
  - intros b a rows row. apply lookup_reshape_replicate.
  - intros b a avs av Hall. apply lookup_concat_same_length, Hall.
Qed.

(** [forward] for a task whose inputs are the observations alone. *)
Lemma forward_eval (self : XTransMAC) (ep_batch : EpisodeBatch) (t : nat)
    (task : string) (test_mode : bool) (task_args : TaskArgs) (n : nat)
    (repre : list R) :
  task2args self !! task = Some task_args ->
  obs_last_action task_args = false -> obs_agent_id task_args = false ->
  task2n_agents self !! task = Some (S n) ->
  task2repre self !! task = Some repre ->
  forward self ep_batch t task test_mode
  = let agent_inputs := concat (obs ep_batch t) in
    let task_repre :=
      concat (replicate (length agent_inputs / S n) (replicate (S n) repre)) in
    let '(agent_outs, hidden, agent') :=
      agent_call (agent self) agent_inputs (hidden_states self)
                 task_repre task in
    let self := set_hidden_states (set_agent self agent') (Some hidden) in
    (self,
     Return (reshape (replicate (batch_size ep_batch) (S n))
               (policy self agent_outs (avail_actions ep_batch t) test_mode))).
Proof.
  intros Ha Hl Hi Hn Hr.
  unfold forward, _build_inputs, get_task_repres, getitem.
  rewrite Ha, Hn, Hr. simpl. rewrite Hl, Hi. reflexivity.
Qed.

End WithNetworks.

(** *** Concrete runs *)

Lemma get_task_repres_contract_witness :
  get_task_repres (ControllerExamples.ex_mac "pi_logits" None) "t" true
  = Raise (AssertionError "Not train task repre in mt training phase!") /\
  get_task_repres (ControllerExamples.ex_mac "pi_logits" None) "t" false
  = Return [[1; 0]].
Proof.
  destruct (get_task_repres_contract
              (ControllerExamples.ex_mac "pi_logits" None) "t") as [Hgrad Hget].
  split; [exact Hgrad|]. apply (Hget [1; 0] 1%nat); reflexivity.
Defined.

(** Evaluates [forward] on the example controller, whose agent returns
    the observations as logits. *)
Ltac run_forward :=
  rewrite (forward_eval _ _ _ _ _ (mkTaskArgs 1 false false) 0 [1; 0])
    by reflexivity;
  cbv [agent_call ControllerExamples.ex_networks];
  cbv [snd policy]; rewrite decide_True by reflexivity;
  cbv [obs rsum foldr main_args set_hidden_states set_agent
       ControllerExamples.ex_mac mask_before_softmax default avail_actions
       ControllerExamples.ex_batch concat app fill_where_zero zip_with Z.eqb
       map softmax negb batch_size replicate reshape take drop length
       zsum Z.add epsilon action_selector].

(** C1, as it is worded, fails.  Three actions with the availabilities
    1, 0, 1, the agent returning the logit -1e10 for the two available
    actions, in test mode: the three masked logits are equal, the
    unavailable action gets probability 1/3 and the available actions sum
    to 2/3. *)
Lemma test_mode_keeps_mass_on_unavailable :
  exists row p,
    (forward (ControllerExamples.ex_mac "pi_logits" None)
             (ControllerExamples.ex_batch [-1e10; 0; -1e10] [1; 0; 1]%Z)
             0 "t" true).2 = Return [[row]] /\
    row !! 1%nat = Some p /\ p = 1 / 3 /\
    ActionRow.sum_avail row [1; 0; 1]%Z = 2 / 3.
Proof.
  eexists _, _. split; [|split; [|split]].
  - run_forward. reflexivity.
  - reflexivity.
  - pose proof (exp_pos (-1e10)). field. lra.
  - cbv [ActionRow.sum_avail zip_with Z.eqb rsum foldr].
    pose proof (exp_pos (-1e10)). field. lra.
Qed.

Lemma policy_distribution_witness :
  exists row_test row_train,
    policy (ControllerExamples.ex_mac "pi_logits" None) [[0; 0; 0]]
           [[[1; 0; 1]%Z]] true !! 0%nat = Some row_test /\
    policy (ControllerExamples.ex_mac "pi_logits" None) [[0; 0; 0]]
           [[[1; 0; 1]%Z]] false !! 0%nat = Some row_train /\
    rsum row_test = 1 /\
    (forall j, [1; 0; 1]%Z !! j = Some 0%Z ->
       exists p, row_test !! j = Some p /\ 0 <= p /\
         forall k x, [1; 0; 1]%Z !! k = Some 1%Z ->
                     [0; 0; 0] !! k = Some x -> p <= exp (-1e10 - x)) /\
    ActionRow.sum_avail row_test [1; 0; 1]%Z
    = 1 - ActionRow.sum_unavail row_test [1; 0; 1]%Z /\
    (forall j, [1; 0; 1]%Z !! j = Some 0%Z -> row_train !! j = Some 0) /\
    ActionRow.sum_avail row_train [1; 0; 1]%Z
    = 1 - (1 - 1 / 2) * ActionRow.sum_unavail row_test [1; 0; 1]%Z.
Proof.
  apply (policy_distribution (ControllerExamples.ex_mac "pi_logits" None)
           [[0; 0; 0]] [[[1; 0; 1]%Z]] 0 [0; 0; 0] [1; 0; 1]%Z);
    try reflexivity.
  - unfold ActionRow.is_mask. repeat (constructor; [lia|]). constructor.
  - exists 0%nat. reflexivity.
Defined.

(** C2, as it is worded, fails.  Without the mask before the softmax,
    two actions with the availabilities 1, 0 and the logits 0, 1, an
    exploration rate of 1/2, in training mode: the only available action
    gets less than 1/2, the rate over the number of available actions. *)
Lemma floor_without_mask_is_lower :
  exists row p,
    (forward (ControllerExamples.ex_mac "pi_logits" (Some false))
             (ControllerExamples.ex_batch [0; 1] [1; 0]%Z)
             0 "t" false).2 = Return [[row]] /\
    row !! 0%nat = Some p /\
    p < epsilon (action_selector
                   (ControllerExamples.ex_mac "pi_logits" (Some false)))
        / INR (ActionRow.count_avail [1; 0]%Z).
Proof.
  eexists _, _. split; [|split].
  - run_forward. reflexivity.
  - reflexivity.
  - change (ActionRow.count_avail [1; 0]%Z) with 1%nat.
    cbv [epsilon action_selector ControllerExamples.ex_mac].
    simpl INR. rewrite exp_0.
    pose proof (exp_increasing 0 1 ltac:(lra)) as HE. rewrite exp_0 in HE.
    revert HE. generalize (exp 1). intros E HE.
    apply Rmult_lt_reg_r with (r := 1 + (E + 0)); [lra|].
    field_simplify; lra.
Qed.

Lemma exploration_floor_witness :
  (default true (mask_before_softmax
                   (main_args (ControllerExamples.ex_mac "pi_logits" None)))
   = true ->
   forall av, concat [[[1; 0; 1]%Z]] !! 0%nat = Some av ->
     length [0; 0; 0] = length av -> ActionRow.is_mask av ->
     exists row,
       policy (ControllerExamples.ex_mac "pi_logits" None) [[0; 0; 0]]
              [[[1; 0; 1]%Z]] false !! 0%nat = Some row /\
       forall j, av !! j = Some 1%Z ->
         exists p, row !! j = Some p /\
           epsilon (action_selector
                      (ControllerExamples.ex_mac "pi_logits" None))
           / INR (ActionRow.count_avail av) <= p) /\
  (default true (mask_before_softmax
                   (main_args (ControllerExamples.ex_mac "pi_logits" None)))
   = false ->
   exists row,
     policy (ControllerExamples.ex_mac "pi_logits" None) [[0; 0; 0]]
            [[[1; 0; 1]%Z]] false !! 0%nat = Some row /\
     length row = length [0; 0; 0] /\
     forall j p, row !! j = Some p ->
       epsilon (action_selector (ControllerExamples.ex_mac "pi_logits" None))
       / INR (length [0; 0; 0]) <= p).
Proof.
  apply (exploration_floor (ControllerExamples.ex_mac "pi_logits" None)
           [[0; 0; 0]] [[[1; 0; 1]%Z]] 0 [0; 0; 0]).
  - reflexivity.
  - reflexivity.
  - simpl. lra.
Defined.

End MACSpec.

(** ** The task representations *)

Module ReprSpec.
Import Tensor TensorFacts MAC LinAlg.

(** *** Vectors of one dimension *)

Lemma length_vadd (u v : list R) (n : nat) :
  length u = n -> length v = n -> length (vadd u v) = n.
Proof. intros Hu Hv. unfold vadd. rewrite length_zip_with. lia. Qed.

Lemma length_vsub (u v : list R) (n : nat) :
  length u = n -> length v = n -> length (vsub u v) = n.
Proof. intros Hu Hv. unfold vsub. rewrite length_zip_with. lia. Qed.

Lemma dot_comm (u v : list R) : dot u v = dot v u.
Proof.
  unfold dot. revert v. induction u as [|x u IH]; intros [|y v]; simpl;
    try reflexivity. rewrite IH. lra.
Qed.

Lemma dot_scale_l (c : R) (u w : list R) : dot (scale c u) w = c * dot u w.
Proof.
  unfold dot, scale. revert w.
  induction u as [|x u IH]; intros [|z w]; simpl; try lra.
  rewrite IH. lra.
Qed.

Lemma dot_self_nonneg (v : list R) : 0 <= dot v v.
Proof. unfold dot. induction v as [|x v IH]; simpl; [lra | nra]. Qed.

(** *** Gram-Schmidt: the shape of what it returns *)

Lemma foldl_vadd_length (n : nat) (comps : list (list R)) (c : list R) :
  length c = n -> Forall (fun x => length x = n) comps ->
  length (foldl vadd c comps) = n.
Proof.
  intros Hc Hcomps. revert c Hc.
  induction Hcomps as [|x comps Hx _ IH]; intros c Hc; simpl; [exact Hc|].
  apply IH, length_vadd; assumption.
Qed.

Lemma perp_to_subspace_length (n : nat) (ret : list (list R)) (vec : list R) :
  length vec = n -> Forall (fun b => length b = n) ret ->
  length (perp_to_subspace vec ret) = n.
Proof.
  intros Hvec Hret. unfold perp_to_subspace.
  destruct ret as [|b0 ret]; simpl; [exact Hvec|].
  apply Forall_cons in Hret as [Hb0 Hret].
  apply length_vsub; [exact Hvec|]. apply foldl_vadd_length.
  - unfold project. rewrite length_map. exact Hb0.
  - apply Forall_map. eapply Forall_impl; [exact Hret|].
    intros b Hb. simpl. unfold project. rewrite length_map. exact Hb.
Qed.

(** When the loop of [orthogonalize] returns, it has added one vector of
    the same dimension per vector read. *)
Lemma orthogonalize_shape (n : nat) (vecs ret gram : list (list R)) :
  Forall (fun v => length v = n) vecs -> Forall (fun b => length b = n) ret ->
  orthogonalize vecs ret = Return gram ->
  length gram = (length ret + length vecs)%nat /\
  Forall (fun b => length b = n) gram.
Proof.
  intros Hvecs. revert ret.
  induction Hvecs as [|vec vecs Hvec _ IH]; intros ret Hret Hg;
    cbn [orthogonalize] in Hg.
  - injection Hg as <-. split; [simpl; lia | exact Hret].
  - destruct (is_zero_matrix (perp_to_subspace vec ret)); [discriminate|].
    apply IH in Hg.
    + destruct Hg as [Hl Hn]. rewrite length_app in Hl. simpl in *.
      split; [lia | exact Hn].
    + apply Forall_app. split; [exact Hret|]. repeat constructor.
      apply perp_to_subspace_length; assumption.
Qed.

Lemma GramSchmidt_shape (n : nat) (vlist gram : list (list R)) :
  Forall (fun v => length v = n) vlist -> GramSchmidt vlist = Return gram ->
  length gram = length vlist /\ Forall (fun b => length b = n) gram.
Proof.
  intros Hlen Hg.
  assert (Ho : orthogonalize vlist [] = Return gram).
  { unfold GramSchmidt in Hg. destruct vlist as [|vec vlist]; [exact Hg|].
    destruct (is_zero_matrix vec); [discriminate | exact Hg]. }
  assert (Hn : Forall (fun b : list R => length b = n) []) by constructor.
  apply (orthogonalize_shape n vlist [] gram Hlen Hn Ho).
Qed.


(** Two rows that are orthogonal already are returned as they are. *)
Lemma GramSchmidt_diagonal :
  GramSchmidt [[1 / 2; 0]; [0; 1 / 2]] = Return [[1 / 2; 0]; [0; 1 / 2]].
Proof.
  set (g := perp_to_subspace [0; 1 / 2] [[1 / 2; 0]]).
  assert (Hg : g = [0; 1 / 2]).
  { unfold g. cbv [perp_to_subspace map project foldl vsub zip_with dot rsum
                   foldr].
    f_equal; [field | f_equal; field]. }
  assert (H1 : is_zero_matrix [1 / 2; 0] = false).
  { apply bool_decide_eq_false. intros Hz.
    apply Forall_cons in Hz as [Ha _]. lra. }
  assert (H2 : is_zero_matrix g = false).
  { rewrite Hg. apply bool_decide_eq_false. intros Hz.
    apply Forall_cons in Hz as [_ Hz]. apply Forall_cons in Hz as [Ha _]. lra. }
  unfold GramSchmidt. rewrite H1. cbn [orthogonalize].
  change (perp_to_subspace [1 / 2; 0] []) with [1 / 2; 0]. rewrite H1.
  cbn [app]. fold g. rewrite H2, Hg. reflexivity.
Qed.

(** *** Normalization of the rows *)

Lemma normalize_scale (x : list R) :
  normalize x = scale (/ Rmax (norm2 x) 1e-12) x.
Proof. unfold normalize, scale. apply map_ext. intros a. unfold Rdiv. ring. Qed.

Lemma length_normalize (g : list R) : length (normalize g) = length g.
Proof. apply length_map. Qed.

Lemma normalize_denominator_pos (g : list R) : 0 < Rmax (norm2 g) 1e-12.
Proof. apply Rlt_le_trans with 1e-12; [lra | apply Rmax_r]. Qed.


(** Every row gets a norm of at most one. *)
Lemma norm2_normalize_le (g : list R) : norm2 (normalize g) <= 1.
Proof.
  unfold norm2 at 1. rewrite normalize_scale.
  rewrite dot_scale_l, (dot_comm g), dot_scale_l.
  pose proof (normalize_denominator_pos g) as Hd.
  assert (Hsd : norm2 g <= Rmax (norm2 g) 1e-12) by apply Rmax_l.
  assert (Hs : 0 <= norm2 g) by apply sqrt_pos.
  assert (Hsq : norm2 g * norm2 g = dot g g)
    by (apply sqrt_sqrt, dot_self_nonneg).
  rewrite <- Hsq. revert Hd Hsd Hs.
  generalize (Rmax (norm2 g) 1e-12) as d. generalize (norm2 g) as s.
  intros s d Hd Hsd Hs.
  assert (Hi : 0 < / d) by (apply Rinv_0_lt_compat, Hd).
  assert (Ht : s * / d <= 1).
  { apply Rle_trans with (d * / d); [|rewrite Rinv_r by lra; lra].
    apply Rmult_le_compat_r; lra. }
  assert (Ht0 : 0 <= s * / d) by (apply Rmult_le_pos; lra).
  apply Rle_trans with (sqrt 1); [|rewrite sqrt_1; lra].
  apply sqrt_le_1_alt.
  replace (/ d * (/ d * (s * s))) with ((s * / d) * (s * / d)) by ring.
  nra.
Qed.


(** *** The store *)

Lemma ort_list_id (m n : nat) (gram : list (list R)) :
  length gram = m -> Forall (fun g => length g = n) gram ->
  map (fun i => map (fun j => nth j (nth i gram []) 0) (seq 0 n)) (seq 0 m)
  = gram.
Proof.
  intros <- Hn. induction Hn as [|g gram Hg _ IH]; [reflexivity|].
  simpl length. cbn [seq map]. f_equal.
  - simpl. rewrite <- Hg. apply MixerSpec.map_nth_seq.
  - rewrite <- seq_shift, map_map. exact IH.
Qed.

Lemma rand_matrix_shape (rand : nat -> nat -> R) (m n : nat) :
  length (rand_matrix rand m n) = m /\
  Forall (fun v => length v = n) (rand_matrix rand m n).
Proof.
  unfold rand_matrix. split; [rewrite length_map; apply length_seq|].
  apply Forall_map, Forall_forall. intros i _. simpl.
  rewrite length_map. apply length_seq.
Qed.

Section Store.
Context {V : Type} (reps : list V) (d0 : V).

Let ins (d : gmap string V) (it : nat * string) : gmap string V :=
  <[it.2 := nth it.1 reps d0]> d.

Lemma foldl_ins_other (its : list (nat * string)) (d : gmap string V)
    (task : string) :
  task ∉ its.*2 -> foldl ins d its !! task = d !! task.
Proof.
  revert d. induction its as [|it its IH]; intros d Hnot; [reflexivity|].
  rewrite fmap_cons, not_elem_of_cons in Hnot. destruct Hnot as [Hne Hnot].
  simpl.
  rewrite (IH _ Hnot). unfold ins. apply lookup_insert_ne. congruence.
Qed.


End Store.

Lemma foldl_ins_inv {V : Type} (reps : list V) (d0 : V)
    (its : list (nat * string)) (d : gmap string V) (task : string) (u : V) :
  foldl (fun (d : gmap string V) (it : nat * string) =>
           <[it.2 := nth it.1 reps d0]> d) d its !! task = Some u ->
  d !! task = Some u \/
  exists k i, its !! k = Some (i, task) /\ u = nth i reps d0.
Proof.
  revert d. induction its as [|[i0 t0] its IH]; intros d Hu; [left; exact Hu|].
  cbn [foldl] in Hu. apply IH in Hu as [Hu | (k & i & Hk & ->)].
  - cbn [fst snd] in Hu. destruct (decide (t0 = task)) as [->|Hne].
    + rewrite lookup_insert_eq in Hu. injection Hu as <-.
      right. exists 0%nat, i0. split; reflexivity.
    + rewrite lookup_insert_ne in Hu by exact Hne. left. exact Hu.
  - right. exists (S k), i. split; [exact Hk | reflexivity].
Qed.

Lemma foldl_ins_is_Some {V : Type} (reps : list V) (d0 : V)
    (its : list (nat * string)) (d : gmap string V) (task : string) :
  is_Some (foldl (fun (d : gmap string V) (it : nat * string) =>
                    <[it.2 := nth it.1 reps d0]> d) d its !! task)
  <-> is_Some (d !! task) \/ task ∈ its.*2.
Proof.
  revert d. induction its as [|[i0 t0] its IH]; intros d.
  - cbn [foldl]. split; [auto|]. intros [Hd | Hin]; [exact Hd|].
    apply elem_of_nil in Hin. destruct Hin.
  - cbn [foldl]. rewrite IH, fmap_cons, elem_of_cons. cbn [fst snd].
    destruct (decide (t0 = task)) as [->|Hne].
    + rewrite lookup_insert_eq. split; [intros _; right; left; reflexivity|].
      intros _. left. eexists. reflexivity.
    + rewrite lookup_insert_ne by exact Hne. split; [tauto|].
      intros [Hd | [Heq | Hin]]; [tauto | congruence | tauto].
Qed.

(** A vector found in the store is the normalized vector, at the index of
    a task of that name, of what [GramSchmidt] returned. *)
Lemma store_lookup_inv (tasks : list string) (gram : list (list R))
    (task : string) (u : list R) :
  length gram = length tasks ->
  foldl (fun (d : gmap string (list R)) (it : nat * string) =>
           <[it.2 := nth it.1 (map normalize gram) []]> d) ∅
        (zip (seq 0 (length tasks)) tasks) !! task = Some u ->
  exists k g, tasks !! k = Some task /\ gram !! k = Some g /\ u = normalize g.
Proof.
  intros Hl Hu. apply foldl_ins_inv in Hu as [Hu | (k & i & Hk & ->)].
  - rewrite lookup_empty in Hu. discriminate.
  - apply lookup_zip_with_Some in Hk as (x & y & Heq & Hx & Hy).
    injection Heq as -> ->. apply lookup_seq in Hx as [-> Hlt]. simpl.
    destruct (lookup_lt_is_Some_2 gram k) as [g Hg]; [lia|].
    exists k, g. split; [exact Hy|]. split; [exact Hg|].
    apply nth_lookup_Some. rewrite list_lookup_fmap, Hg. reflexivity.
Qed.

Lemma store_is_Some (tasks : list string) (reps : list (list R))
    (task : string) :
  is_Some (foldl (fun (d : gmap string (list R)) (it : nat * string) =>
                    <[it.2 := nth it.1 reps []]> d) ∅
                 (zip (seq 0 (length tasks)) tasks) !! task)
  <-> task ∈ tasks.
Proof.
  rewrite foldl_ins_is_Some, snd_zip by (rewrite length_seq; reflexivity).
  rewrite lookup_empty. split; [|auto].
  intros [[x Hx] | Hin]; [discriminate | exact Hin].
Qed.

Section WithNetworks.
Context `{Networks}.

(** [init_task_repres] returns exactly when [GramSchmidt] does, with the
    store built from the vectors it gave. *)
Lemma init_task_repres_Return (self : XTransMAC) (rand : nat -> nat -> R)
    (gram : list (list R)) :
  GramSchmidt (rand_matrix rand (length (train_tasks self))
                           (task_repre_dim (main_args self))) = Return gram ->
  length gram = length (train_tasks self) /\
  Forall (fun b => length b = task_repre_dim (main_args self)) gram /\
  init_task_repres self rand
  = Return (set_task2repre self
              (foldl (fun (d : gmap string (list R)) (it : nat * string) =>
                        <[it.2 := nth it.1 (map normalize gram) []]> d) ∅
                     (zip (seq 0 (length (train_tasks self)))
                          (train_tasks self)))).
Proof.
  set (m := length (train_tasks self)).
  set (n := task_repre_dim (main_args self)). intros Hg.
  destruct (rand_matrix_shape rand m n) as [Hm Hn].
  destruct (GramSchmidt_shape n _ gram Hn Hg) as [Hl Hw]. rewrite Hm in Hl.
  split; [exact Hl|]. split; [exact Hw|].
  unfold init_task_repres, orthogo_tensor. fold m n. rewrite Hg.
  cbn [mbind pyres_bind mret pyres_ret].
  rewrite ort_list_id by assumption. reflexivity.
Qed.

Lemma init_task_repres_inv (self self' : XTransMAC) (rand : nat -> nat -> R) :
  init_task_repres self rand = Return self' ->
  exists gram,
    GramSchmidt (rand_matrix rand (length (train_tasks self))
                             (task_repre_dim (main_args self))) = Return gram /\
    length gram = length (train_tasks self) /\
    Forall (fun b => length b = task_repre_dim (main_args self)) gram /\
    self' = set_task2repre self
              (foldl (fun (d : gmap string (list R)) (it : nat * string) =>
                        <[it.2 := nth it.1 (map normalize gram) []]> d) ∅
                     (zip (seq 0 (length (train_tasks self)))
                          (train_tasks self))).
Proof.
  intros Hinit.
  destruct (GramSchmidt (rand_matrix rand (length (train_tasks self))
                                     (task_repre_dim (main_args self))))
    as [gram|e] eqn:Hg.
  - destruct (init_task_repres_Return self rand gram Hg) as (Hl & Hw & Hr).
    rewrite Hr in Hinit. injection Hinit as <-.
    exists gram. split; [reflexivity|]. split; [exact Hl|].
    split; [exact Hw | reflexivity].
  - unfold init_task_repres, orthogo_tensor in Hinit. rewrite Hg in Hinit.
    discriminate.
Qed.


End WithNetworks.


(** The construction on the draw [rand_diagonal]. *)
Lemma ex_mac2_diagonal_init :
  init_task_repres StoreExamples.ex_mac2 StoreExamples.rand_diagonal
  = Return ExtraExamples.ex_mac2_filled.
Proof.
  destruct (init_task_repres_Return StoreExamples.ex_mac2
              StoreExamples.rand_diagonal [[1 / 2; 0]; [0; 1 / 2]]
              GramSchmidt_diagonal) as (_ & _ & Hinit).
  rewrite Hinit. reflexivity.
Qed.


End ReprSpec.

(** ** More on the mixer *)

Module MixerExtra.
Import Tensor TensorFacts Mixer More.

Lemma dot_weights_bounds (lo hi : R) (u w : list R) :
  length u = length w -> Forall (Rle 0) w ->
  Forall (fun x => lo <= x <= hi) u ->
  lo * rsum w <= dot u w <= hi * rsum w.
Proof.
  unfold dot. revert w. induction u as [|x u IH]; intros [|c w] Hlen Hw Hu;
    simpl in *; try discriminate; [lra|].
  apply Forall_cons in Hw as [Hc Hw]. apply Forall_cons in Hu as [Hx Hu].
  specialize (IH w ltac:(lia) Hw Hu). nra.
Qed.

Lemma mean_bounds (lo hi : R) (l : list R) :
  l <> [] -> Forall (fun x => lo <= x <= hi) l -> lo <= mean l <= hi.
Proof.
  intros Hne Hl. unfold mean.
  assert (Hsum : INR (length l) * lo <= rsum l <= INR (length l) * hi).
  { clear Hne. induction Hl as [|x l Hx _ IH]; [simpl; lra|].
    rewrite length_cons, S_INR. simpl. lra. }
  assert (Hpos : 0 < INR (length l)).
  { apply lt_0_INR. destruct l; [congruence | simpl; lia]. }
  split.
  - apply Rmult_le_reg_r with (r := INR (length l)); [exact Hpos|].
    unfold Rdiv. rewrite Rmult_assoc, Rinv_l by lra. lra.
  - apply Rmult_le_reg_r with (r := INR (length l)); [exact Hpos|].
    unfold Rdiv. rewrite Rmult_assoc, Rinv_l by lra. lra.
Qed.

(** X1.  The context vector of the attention step stays within the
    range of the entity embeddings: in each feature [d] it lies between
    any lower and any upper bound of that feature over the entities. *)
Theorem attn_out_within_embeddings (self : QMixer) (es : list (list R))
    (d : nat) (lo hi : R) :
  length es = n_entities self -> es <> [] ->
  (d < entity_embed_dim self)%nat ->
  Forall (fun e => lo <= nth d e 0 <= hi) es ->
  lo <= nth d (attn_out self es) 0 <= hi.
Proof.
  intros Hn Hne Hd Hes.
  unfold attn_out, mean_last, matmul, transpose. rewrite !map_map.
  rewrite MixerSpec.nth_map_seq by exact Hd.
  assert (Hpos : (0 < n_entities self)%nat)
    by (rewrite <- Hn; destruct es; [congruence | simpl; lia]).
  apply mean_bounds.
  { destruct (n_entities self); [lia | discriminate]. }
  apply Forall_map, Forall_forall. intros j Hj. simpl.
  apply list_elem_of_In, in_seq in Hj.
  rewrite MixerSpec.col_attn_score by lia.
  set (xs := col j (energy self es)).
  assert (Hlen : length (col d es) = length (softmax xs)).
  { rewrite softmax_length. unfold xs, col. rewrite !length_map.
    symmetry. apply MixerSpec.energy_length. }
  assert (Hxs : xs <> []).
  { intros Hnil. rewrite Hnil in Hlen. unfold col in Hlen.
    rewrite length_map in Hlen. destruct es; [congruence | discriminate]. }
  pose proof (dot_weights_bounds lo hi (col d es) (softmax xs) Hlen) as Hb.
  rewrite (softmax_sum xs Hxs) in Hb.
  assert (Hw : Forall (Rle 0) (softmax xs)).
  { eapply Forall_impl; [apply softmax_pos|]. intros x Hx. simpl in *. lra. }
  assert (Hu : Forall (fun x => lo <= x <= hi) (col d es)).
  { unfold col. apply Forall_map. exact Hes. }
  specialize (Hb Hw Hu). lra.
Qed.

Lemma attn_out_within_embeddings_witness :
  0 <= nth 0 (attn_out (Examples.ex_mixer false) [[0]; [1]; [0]]) 0 <= 1.
Proof.
  apply (attn_out_within_embeddings (Examples.ex_mixer false)
           [[0]; [1]; [0]] 0 0 1).
  - reflexivity.
  - discriminate.
  - simpl. lia.
  - repeat constructor; simpl; lra.
Defined.

Lemma elu_lower (x : R) : -1 <= elu x.
Proof.
  unfold elu. destruct (Rlt_dec 0 x); [lra|]. pose proof (exp_pos x). lra.
Qed.

Lemma dot_lower (h w : list R) :
  Forall (Rle (-1)) h -> Forall (Rle 0) w -> - rsum w <= dot h w.
Proof.
  unfold dot. intros Hh. revert w.
  induction Hh as [|x h Hx _ IH]; intros w Hw.
  - simpl. pose proof (rsum_nonneg w Hw). lra.
  - destruct w as [|c w]; [simpl; lra|].
    apply Forall_cons in Hw as [Hc Hw]. specialize (IH w Hw). simpl. nra.
Qed.

(** X2.  Whatever the per-agent values, the mixed value of a slot is
    bounded below by a number that depends on the state and the task
    representation alone: the hidden layer is an [elu], at least -1,
    and the final weights are absolute values. *)
Theorem q_tot_bounded_below (self : QMixer) (states : list R)
    (task_repre_mu : list (list R)) :
  exists bound, forall agent_qs,
    bound <= forward_bt self agent_qs states task_repre_mu.
Proof.
  set (mi := mixing_input self states task_repre_mu).
  set (w_final :=
         mean_dim0 (embed_dim self)
           (map (fun x => map Rabs (linear (hyper_w_final self) x)) mi)).
  exists (- rsum w_final + mean (col 0 (map (V self) mi))).
  intros agent_qs. unfold forward_bt, mix. fold mi. fold w_final.
  apply Rplus_le_compat_r. apply dot_lower.
  - apply Forall_map, Forall_forall. intros x _. apply elu_lower.
  - apply mean_dim0_nonneg, MixerSpec.abs_rows_nonneg.
Qed.

Lemma zip_with3_shape {A B C D : Type} (P : A -> D -> Prop)
    (Q : A -> B -> Prop) (S : A -> C -> Prop)
    (f : A -> B -> C -> D) (xs : list A) (ys : list B) (zs : list C) :
  Forall2 Q xs ys -> Forall2 S xs zs ->
  (forall x y z, Q x y -> S x z -> P x (f x y z)) ->
  Forall2 P xs (zip_with3 f xs ys zs).
Proof.
  unfold zip_with3. intros Hy. revert zs.
  induction Hy as [|x y xs ys Hxy _ IH]; intros zs Hz Hf;
    inversion Hz; subst; simpl; constructor; auto.
Qed.

(** X3.  Outside the timestep mode, on three tensors that agree on their
    batch and time axes, [q_tot] has the batch and time axes of
    [agent_qs] and a last axis of size 1. *)
Theorem q_tot_shape (self : QMixer) (agent_qs states : list (list (list R)))
    (task_repre_mu : list (list (list (list R))))
    (q_tot : list (list (list R))) :
  Forall2 (fun q s => length q = length s) agent_qs states ->
  Forall2 (fun q r => length q = length r) agent_qs task_repre_mu ->
  forward self agent_qs states task_repre_mu = Return q_tot ->
  Forall2 (fun q y => Forall2 (fun _ e => length e = 1%nat) q y)
          agent_qs q_tot.
Proof.
  intros Hss Hrr. unfold forward.
  destruct (state_timestep_number self); [discriminate|]. intros [= <-].
  eapply zip_with3_shape; [exact Hss | exact Hrr |].
  intros q s r Hs Hr.
  eapply (zip_with3_shape _ (fun _ _ => True) (fun _ _ => True)).
  - apply Forall2_true; [tauto | exact Hs].
  - apply Forall2_true; [tauto | exact Hr].
  - reflexivity.
Qed.

Lemma q_tot_shape_witness :
  Forall2 (fun q y => Forall2 (fun _ e => length e = 1%nat) q y)
    [[ [1; 2] ]]
    [[ [forward_bt (Examples.ex_mixer false) [1; 2] Examples.ex_state
                   Examples.ex_repre] ]].
Proof.
  apply (q_tot_shape (Examples.ex_mixer false) [[ [1; 2] ]]
           [[Examples.ex_state]] [[Examples.ex_repre]]).
  - repeat constructor.
  - repeat constructor.
  - reflexivity.
Defined.

Lemma map_linear_widths (l : Linear) (sh : LinearShape) (xs : list (list R)) :
  has_shape l sh ->
  Forall (fun e => length e = out_features sh) (map (linear l) xs).
Proof.
  intros (Hw & Hb & _). apply Forall_map, Forall_forall. intros x _. simpl.
  apply MixerSpec.linear_length; assumption.
Qed.

(** X4.  For a mixer with the layers of [__init__], when the decomposer
    gives one feature group per ally and per enemy (and, with the last
    action in the state, one compact action row per ally), the entity
    set of a slot has [n_agents + n_enemies] embeddings of dimension
    [entity_embed_dim]. *)
Theorem entity_embed_shape (self : QMixer) (task_repre_dim : nat)
    (state : list R) (ally_states enemy_states last_action_states : list (list R))
    (timestep : list R) (a1 a2 compact_action_states : list (list R)) :
  built_by_init self task_repre_dim ->
  decompose_state (decomposer self) state
  = (ally_states, enemy_states, last_action_states, timestep) ->
  decompose_action_info (decomposer self) last_action_states
  = (a1, a2, compact_action_states) ->
  length ally_states = n_agents self ->
  length enemy_states = n_enemies self ->
  (state_last_action self = true ->
   length compact_action_states = n_agents self) ->
  length (entity_embed self state) = n_entities self /\
  Forall (fun e => length e = entity_embed_dim self) (entity_embed self state).
Proof.
  intros (Hal & Hen & _) Hdec Hact Hna Hne Hcomp.
  unfold entity_embed. rewrite Hdec, Hact. split.
  - rewrite length_app, !length_map. unfold n_entities. rewrite Hne.
    destruct (state_last_action self); [|lia].
    unfold cat_last. rewrite length_zip_with, Hna, Hcomp by reflexivity. lia.
  - apply Forall_app. split.
    + pose proof (map_linear_widths (ally_encoder self) _
                    (if state_last_action self
                     then cat_last ally_states compact_action_states
                     else ally_states) Hal) as Hw.
      unfold QMixer_init_shapes in Hw. simpl in Hw.
      destruct (dec_state_last_action (decomposer self)); exact Hw.
    + exact (map_linear_widths (enemy_encoder self) _ enemy_states Hen).
Qed.

Lemma ex_mixer_built_by_init : built_by_init (Examples.ex_mixer false) 1.
Proof. repeat split; repeat constructor. Qed.

Lemma entity_embed_shape_witness :
  length (entity_embed (Examples.ex_mixer false) Examples.ex_state) = 3%nat /\
  Forall (fun e => length e = 1%nat)
         (entity_embed (Examples.ex_mixer false) Examples.ex_state).
Proof.
  apply (entity_embed_shape (Examples.ex_mixer false) 1 Examples.ex_state
           [[0]; [1]] [[0]] [] [] [] [] []).
  - exact ex_mixer_built_by_init.
  - reflexivity.
  - reflexivity.
  - reflexivity.
  - reflexivity.
  - discriminate.
Defined.

Lemma cat_last_replicate_widths (c : list R) (n D : nat)
    (rs : list (list R)) :
  Forall (fun r => length r = D) rs ->
  Forall (fun x => length x = (length c + D)%nat)
         (cat_last (replicate n c) rs).
Proof.
  unfold cat_last. intros Hrs. revert n.
  induction Hrs as [|r rs Hr _ IH]; intros [|n]; simpl; constructor.
  - rewrite length_app. lia.
  - apply IH.
Qed.

(** X5.  Outside the timestep mode the rows given to the hypernetworks
    have [entity_embed_dim + task_repre_dim] entries, while [__init__]
    builds those layers for [mixing_input_dim] entries, which counts the
    timestep feature as well: the two agree exactly when the decomposer
    has no timestep feature. *)
Theorem hypernet_input_width (self : QMixer) (task_repre_dim : nat)
    (state : list R) (task_repre_mu : list (list R)) :
  (0 < n_agents self)%nat -> task_repre_mu <> [] ->
  Forall (fun r => length r = task_repre_dim) task_repre_mu ->
  Forall (fun x => length x = (entity_embed_dim self + task_repre_dim)%nat)
         (mixing_input self state task_repre_mu) /\
  (Forall (fun x => length x
                    = mixing_input_dim
                        (QMixer_init_shapes (decomposer self) (embed_dim self)
                           (attn_embed_dim self) (entity_embed_dim self)
                           task_repre_dim))
          (mixing_input self state task_repre_mu)
   <-> timestep_number_state_dim (decomposer self) = 0%nat).
Proof.
  intros Hn Hne Hrep.
  assert (Hlen : length (attn_out self (entity_embed self state))
                 = entity_embed_dim self).
  { unfold attn_out, mean_last, matmul, transpose.
    rewrite !length_map, length_seq. reflexivity. }
  assert (Hw : Forall (fun x => length x
                               = (entity_embed_dim self + task_repre_dim)%nat)
                      (mixing_input self state task_repre_mu)).
  { unfold mixing_input. rewrite <- Hlen.
    apply cat_last_replicate_widths, Hrep. }
  split; [exact Hw|]. simpl.
  assert (Hex : exists x rest, mixing_input self state task_repre_mu = x :: rest).
  { unfold mixing_input, cat_last.
    destruct (n_agents self) as [|n]; [lia|].
    destruct task_repre_mu as [|r rs]; [congruence|]. simpl. eauto. }
  destruct Hex as (x & rest & Hx). split.
  - intros Hall. rewrite Hx in Hall, Hw.
    apply Forall_cons in Hall as [Hallx _]. apply Forall_cons in Hw as [Hwx _].
    lia.
  - intros Hz. eapply Forall_impl; [exact Hw|]. intros y Hy. simpl in *. lia.
Qed.

Lemma hypernet_input_width_witness :
  Forall (fun x => length x = 2%nat)
         (mixing_input (Examples.ex_mixer false) Examples.ex_state
                       Examples.ex_repre) /\
  (Forall (fun x => length x = 2%nat)
          (mixing_input (Examples.ex_mixer false) Examples.ex_state
                        Examples.ex_repre)
   <-> 0%nat = 0%nat).
Proof.
  apply (hypernet_input_width (Examples.ex_mixer false) 1 Examples.ex_state
           Examples.ex_repre).
  - simpl. lia.
  - discriminate.
  - repeat constructor.
Defined.

End MixerExtra.

(** ** More on the controller *)

Module MACExtra.
Import Tensor TensorFacts MAC More ActionRow.

Section WithNetworks.
Context `{Networks}.

(** X8.  When the outputs of the agent are not policy logits, [forward]
    returns them as they are, regrouped by batch entry: the availability
    of the actions and the test mode play no role. *)
Theorem forward_raw_values (self : XTransMAC) (ep_batch : EpisodeBatch)
    (t : nat) (task : string) (test_mode test_mode' : bool) :
  agent_output_type self <> "pi_logits" ->
  (forall agent_outs avail_actions,
     policy self agent_outs avail_actions test_mode = agent_outs) /\
  forward self ep_batch t task test_mode
  = forward self ep_batch t task test_mode'.
Proof.
  intros Hq.
  assert (Hpol : forall (s : XTransMAC) outs avail tm,
            agent_output_type s <> "pi_logits" -> policy s outs avail tm = outs).
  { intros s outs avail tm Hs. unfold policy.
    rewrite decide_False by exact Hs. reflexivity. }
  split; [intros; apply Hpol, Hq|].
  unfold forward.
  destruct (_ ≫= _) as [[[agent_inputs n_agents] task_repre]|e];
    [|reflexivity].
  destruct (agent_call _ _ _ _ _) as [[agent_outs hidden] agent'].
  rewrite !Hpol by exact Hq. reflexivity.
Qed.

(** X9.  The policy block keeps the shape of the outputs of the agent:
    when the reshaped availabilities have the shape of these outputs,
    the result has as many rows, of the same lengths, whatever the
    output type, the mask option and the mode. *)
Theorem policy_keeps_shape (self : XTransMAC) (agent_outs : list (list R))
    (avail : list (list (list Z))) (test_mode : bool) :
  Forall2 (fun o a => length o = length a) agent_outs (concat avail) ->
  Forall2 (fun row o => length row = length o)
          (policy self agent_outs avail test_mode) agent_outs.
Proof.
  intros Hsh. unfold policy, fill_where_zero.
  destruct (decide _) as [_|_].
  2:{ clear. induction agent_outs; constructor; auto. }
  destruct (default true _), test_mode; simpl;
    induction Hsh as [|o a outs avs Hoa _ IH]; simpl; constructor;
    try exact IH;
    rewrite ?length_zip_with, ?length_map, ?softmax_length,
            ?length_zip_with; lia.
Qed.

(** X10.  In training mode, with policy logits and the mask, a row with
    no available action (a padded step) comes out as zeros, whatever
    the logits and the exploration rate. *)
Theorem padding_row_is_zero (self : XTransMAC) (agent_outs : list (list R))
    (avail : list (list (list Z))) (i : nat) (logits : list R) (av : list Z) :
  agent_output_type self = "pi_logits" ->
  default true (mask_before_softmax (main_args self)) = true ->
  agent_outs !! i = Some logits -> concat avail !! i = Some av ->
  Forall (fun a => a = 0%Z) av ->
  exists row, policy self agent_outs avail false !! i = Some row /\
              Forall (fun p => p = 0) row.
Proof.
  intros Hpi Hmask Hi Hav Hz.
  pose proof (MACSpec.policy_row_masked self agent_outs avail false i logits av
                Hpi Hmask Hi Hav) as Hrow.
  simpl in Hrow. eexists. split; [exact Hrow|].
  generalize (map (fun p => (1 - epsilon (action_selector self)) * p
                            + 1 * epsilon (action_selector self)
                              / IZR (zsum av))
                  (softmax (zip_with (fun x a => if (a =? 0)%Z then -1e10 else x)
                                     logits av))).
  intros q. clear Hrow Hav. revert q.
  induction Hz as [|a av -> _ IH]; intros [|p q]; simpl; constructor;
    [reflexivity | apply IH].
Qed.

Lemma rsum_affine (a c : R) (s : list R) :
  rsum (map (fun p => a * p + c) s) = a * rsum s + INR (length s) * c.
Proof.
  induction s as [|p s IH]; [simpl; lra|].
  rewrite length_cons, S_INR. simpl. rewrite IH. lra.
Qed.

(** X11.  Without the mask before the softmax, a row of the training
    mode still sums to 1 over all the actions. *)
Theorem unmasked_row_sums_to_one (self : XTransMAC)
    (agent_outs : list (list R)) (avail : list (list (list Z))) (i : nat)
    (logits : list R) :
  agent_output_type self = "pi_logits" ->
  default true (mask_before_softmax (main_args self)) = false ->
  agent_outs !! i = Some logits -> logits <> [] ->
  exists row, policy self agent_outs avail false !! i = Some row /\
              rsum row = 1.
Proof.
  intros Hpi Hmask Hi Hne.
  pose proof (MACSpec.policy_row_unmasked self agent_outs avail i logits
                Hpi Hmask Hi) as Hrow.
  eexists. split; [exact Hrow|].
  unfold Rdiv. rewrite Rmult_assoc. rewrite rsum_affine.
  rewrite (softmax_sum logits Hne), softmax_length.
  assert (0 < INR (length logits)).
  { apply lt_0_INR. destruct logits; [congruence | simpl; lia]. }
  field. lra.
Qed.

(** X12.  With the mask and an exploration rate of 1, a row of the
    training mode is uniform over the available actions: probability
    one over the number of available actions for each of them and 0 for
    the others, whatever the logits. *)
Theorem full_exploration_is_uniform (self : XTransMAC)
    (agent_outs : list (list R)) (avail : list (list (list Z))) (i : nat)
    (logits : list R) (av : list Z) :
  agent_output_type self = "pi_logits" ->
  default true (mask_before_softmax (main_args self)) = true ->
  epsilon (action_selector self) = 1 ->
  agent_outs !! i = Some logits -> concat avail !! i = Some av ->
  length logits = length av -> is_mask av ->
  exists row, policy self agent_outs avail false !! i = Some row /\
    forall j a, av !! j = Some a ->
      exists p, row !! j = Some p /\
        p = if (a =? 0)%Z then 0 else 1 / INR (count_avail av).
Proof.
  intros Hpi Hmask Heps Hi Hav Hlen Hm.
  pose proof (MACSpec.policy_row_masked self agent_outs avail false i logits av
                Hpi Hmask Hi Hav) as Hrow.
  simpl in Hrow. eexists. split; [exact Hrow|]. intros j a Hj.
  destruct (MACSpec.masked_lookup logits av j a Hlen Hj) as (x & _ & Hmj).
  apply softmax_lookup in Hmj.
  eexists. split.
  { rewrite lookup_zip_with, list_lookup_fmap, Hmj, Hj. reflexivity. }
  simpl. destruct (a =? 0)%Z; [reflexivity|].
  rewrite Heps, (RowFacts.zsum_count_avail av Hm). unfold Rdiv. ring.
Qed.

Lemma rsum_fill_zero (q : list R) (av : list Z) :
  rsum (zip_with (fun p a => if (a =? 0)%Z then 0 else p) q av)
  = sum_avail q av.
Proof. reflexivity. Qed.

Lemma sum_avail_fill_zero (q : list R) (av : list Z) :
  sum_avail (zip_with (fun p a => if (a =? 0)%Z then 0 else p) q av) av
  = sum_avail q av.
Proof.
  unfold sum_avail. revert av.
  induction q as [|p q IH]; intros [|a av]; simpl; try reflexivity.
  rewrite IH. destruct (a =? 0)%Z; reflexivity.
Qed.

(** X13.  With the mask, an exploration rate between 0 and 1 and an
    available action, a row of the training mode is a sub-distribution:
    its entries are not negative, and its sum, which is the mass of the
    available actions, is at most 1. *)
Theorem training_row_is_subdistribution (self : XTransMAC)
    (agent_outs : list (list R)) (avail : list (list (list Z))) (i : nat)
    (logits : list R) (av : list Z) :
  agent_output_type self = "pi_logits" ->
  default true (mask_before_softmax (main_args self)) = true ->
  0 <= epsilon (action_selector self) <= 1 ->
  agent_outs !! i = Some logits -> concat avail !! i = Some av ->
  length logits = length av -> is_mask av ->
  (exists k, av !! k = Some 1%Z) ->
  exists row, policy self agent_outs avail false !! i = Some row /\
    Forall (Rle 0) row /\ rsum row = sum_avail row av /\ rsum row <= 1.
Proof.
  intros Hpi Hmask Heps Hi Hav Hlen Hm [k0 Hk0].
  pose proof (MACSpec.policy_row_masked self agent_outs avail false i logits av
                Hpi Hmask Hi Hav) as Hrow.
  simpl in Hrow. eexists. split; [exact Hrow|].
  set (m := zip_with (fun x a => if (a =? 0)%Z then -1e10 else x) logits av).
  set (c := 1 * epsilon (action_selector self) / IZR (zsum av)).
  assert (Hslen : length (softmax m) = length av).
  { rewrite softmax_length. unfold m. rewrite length_zip_with. lia. }
  assert (Hne : m <> []).
  { intros Hnil. rewrite Hnil in Hslen. simpl in Hslen.
    apply lookup_lt_Some in Hk0. lia. }
  pose proof (RowFacts.count_avail_pos av k0 Hk0) as Hpos.
  apply lt_0_INR in Hpos.
  assert (Hc : 0 <= c).
  { unfold c. rewrite (RowFacts.zsum_count_avail av Hm).
    apply Rmult_le_pos; [lra|]. left. apply Rinv_0_lt_compat, Hpos. }
  split; [|split].
  - generalize (softmax_pos m). generalize (softmax m). intros s Hs.
    clearbody c. clear - Hs Hc Heps. revert av.
    induction Hs as [|p s Hp _ IH]; intros [|a av]; simpl; constructor;
      [destruct (a =? 0)%Z; [lra | nra] | apply IH].
  - rewrite rsum_fill_zero. symmetry. apply sum_avail_fill_zero.
  - rewrite rsum_fill_zero.
    pose proof (RowFacts.sum_avail_floor (epsilon (action_selector self)) c
                  (softmax m) av Hslen) as Hfloor.
    rewrite sum_avail_fill_zero in Hfloor. rewrite Hfloor.
    pose proof (RowFacts.sum_avail_unavail (softmax m) av Hslen) as Hsplit.
    rewrite (softmax_sum m Hne) in Hsplit.
    pose proof (RowFacts.sum_unavail_nonneg (softmax m) av (softmax_pos m)) as Hu.
    assert (Hce : c * INR (count_avail av) = epsilon (action_selector self)).
    { unfold c. rewrite (RowFacts.zsum_count_avail av Hm). field. lra. }
    rewrite Hce. nra.
Qed.

(** *** The inputs of the agent *)

Lemma input_shape_loop_raise (self : XTransMAC)
    (task2scheme : gmap string Scheme) (tasks : list string) (e : exn) :
  input_shape_loop self task2scheme (Raise e) tasks = Raise e.
Proof. induction tasks as [|a tasks IH]; [reflexivity | exact IH]. Qed.

Lemma input_shape_loop_cons (self : XTransMAC)
    (task2scheme : gmap string Scheme) (a : string) (tasks : list string)
    (acc : gmap string InputShapeInfo) :
  input_shape_loop self task2scheme (Return acc) (a :: tasks)
  = match input_shape_of_task self task2scheme a with
    | Return info =>
        input_shape_loop self task2scheme (Return (<[a := info]> acc)) tasks
    | Raise e => Raise e
    end.
Proof.
  unfold input_shape_loop at 1. simpl.
  destruct (input_shape_of_task self task2scheme a); simpl;
    [reflexivity | apply input_shape_loop_raise].
Qed.

Lemma get_input_shape_lookup (self : XTransMAC)
    (task2scheme : gmap string Scheme) (tasks : list string)
    (acc d : gmap string InputShapeInfo) (task : string)
    (info : InputShapeInfo) :
  input_shape_loop self task2scheme (Return acc) tasks = Return d ->
  d !! task = Some info ->
  (task ∈ tasks /\ input_shape_of_task self task2scheme task = Return info)
  \/ acc !! task = Some info.
Proof.
  revert acc. induction tasks as [|a tasks IH]; intros acc Hfold Hd.
  - injection Hfold as <-. right. exact Hd.
  - rewrite input_shape_loop_cons in Hfold.
    destruct (input_shape_of_task self task2scheme a) as [ia|e] eqn:Ea.
    + destruct (IH _ Hfold Hd) as [[Hin Hinfo]|Hacc].
      * left. split; [apply list_elem_of_further, Hin | exact Hinfo].
      * destruct (decide (task = a)) as [->|Hne].
        -- rewrite lookup_insert_eq in Hacc. injection Hacc as ->.
           left. split; [apply list_elem_of_here | exact Ea].
        -- rewrite lookup_insert_ne in Hacc by congruence. right. exact Hacc.
    + discriminate.
Qed.

Lemma concat_shape {A : Type} (bs n w : nat) (x : list (list (list A))) :
  Shape.shape3 bs n w x -> Shape.shape2 (bs * n) w (concat x).
Proof.
  intros [Hlen Hall]. subst bs. unfold Shape.shape2.
  induction Hall as [|e x [He Hrows] _ [IH1 IH2]]; [split; [reflexivity | constructor]|].
  simpl. split.
  - rewrite length_app, He, IH1. lia.
  - apply Forall_app. split; assumption.
Qed.

Lemma cat_last_shape (k w1 w2 : nat) (A B : list (list R)) :
  Shape.shape2 k w1 A -> Shape.shape2 k w2 B ->
  Shape.shape2 k (w1 + w2) (cat_last A B).
Proof.
  unfold Shape.shape2, cat_last. intros [HA HwA] [HB HwB]. subst k.
  revert B HB HwB. induction HwA as [|a A Ha _ IH]; intros [|b B] HB HwB;
    simpl in *; try discriminate; [split; [reflexivity | constructor]|].
  apply Forall_cons in HwB as [Hb HwB].
  destruct (IH B ltac:(lia) HwB) as [IH1 IH2].
  split; [lia|]. constructor; [rewrite length_app; lia | exact IH2].
Qed.

Lemma zeros_like_shape (bs n w : nat) (x : list (list (list R))) :
  Shape.shape3 bs n w x -> Shape.shape3 bs n w (zeros_like x).
Proof.
  unfold Shape.shape3, zeros_like. intros [Hlen Hall].
  split; [rewrite length_map; exact Hlen|].
  apply Forall_map. eapply Forall_impl; [exact Hall|].
  intros e [He Hrows]. simpl. split; [rewrite length_map; exact He|].
  apply Forall_map. eapply Forall_impl; [exact Hrows|].
  intros row Hrow. simpl. rewrite length_map. exact Hrow.
Qed.

Lemma eye_shape (bs n : nat) : Shape.shape3 bs n n (replicate bs (eye n)).
Proof.
  unfold Shape.shape3. split; [apply length_replicate|].
  apply Forall_replicate. unfold eye. split.
  - rewrite length_map. apply length_seq.
  - apply Forall_map, Forall_forall. intros i _. simpl.
    rewrite length_map. apply length_seq.
Qed.

(** X15.  The rows that [_build_inputs] gives to the agent have the
    width that [_get_input_shape] announced for the task when the agent
    was built, and there is one row per agent of each batch entry: for
    observations (and one-hot actions, when they are part of the input)
    of the shapes of the scheme. *)
Theorem build_inputs_matches_input_shape (self : XTransMAC)
    (task2scheme : gmap string Scheme) (d : gmap string InputShapeInfo)
    (ep_batch : EpisodeBatch) (t : nat) (task : string)
    (info : InputShapeInfo) (scheme : Scheme) (task_args : TaskArgs)
    (n : nat) :
  _get_input_shape self task2scheme = Return d -> d !! task = Some info ->
  task2scheme !! task = Some scheme ->
  task2args self !! task = Some task_args ->
  task2n_agents self !! task = Some n ->
  Shape.shape3 (batch_size ep_batch) n (obs_vshape scheme) (obs ep_batch t) ->
  (obs_last_action task_args = true ->
   Shape.shape3 (batch_size ep_batch) n (actions_onehot_vshape scheme)
     (actions_onehot ep_batch (if (t =? 0)%nat then t else (t - 1)%nat))) ->
  exists inputs,
    _build_inputs self ep_batch t task = Return inputs /\
    Shape.shape2 (batch_size ep_batch * n) (input_shape info) inputs.
Proof.
  intros Hget Hd Hsch Hargs Hn Hobs Hact.
  destruct (get_input_shape_lookup self task2scheme _ ∅ d task info Hget Hd)
    as [[_ Hinfo]|Hemp]; [|rewrite lookup_empty in Hemp; discriminate].
  unfold input_shape_of_task, getitem in Hinfo.
  rewrite Hsch, Hargs in Hinfo. simpl in Hinfo.
  unfold _build_inputs, getitem. rewrite Hargs, Hn. simpl.
  pose proof (concat_shape _ _ _ _ Hobs) as Hobs2.
  destruct (obs_last_action task_args) eqn:Ela;
    destruct (obs_agent_id task_args) eqn:Eid; simpl in Hinfo;
    rewrite ?Hn in Hinfo; simpl in Hinfo; injection Hinfo as <-;
    eexists; (split; [reflexivity|]); simpl.
  - specialize (Hact eq_refl).
    destruct (t =? 0)%nat; simpl;
      (apply cat_last_shape; [apply cat_last_shape; [exact Hobs2|]|]);
      try (apply concat_shape, eye_shape);
      try (apply concat_shape, zeros_like_shape, Hact);
      apply concat_shape, Hact.
  - specialize (Hact eq_refl).
    destruct (t =? 0)%nat; simpl; (apply cat_last_shape; [exact Hobs2|]);
      try (apply concat_shape, zeros_like_shape, Hact);
      apply concat_shape, Hact.
  - apply cat_last_shape; [exact Hobs2 | apply concat_shape, eye_shape].
  - exact Hobs2.
Qed.

Lemma cat_last_lookup (A B : list (list R)) (i : nat) (x y : list R) :
  A !! i = Some x -> B !! i = Some y -> cat_last A B !! i = Some (x ++ y).
Proof.
  intros HA HB. unfold cat_last. rewrite lookup_zip_with, HA, HB. reflexivity.
Qed.

Lemma eye_lookup (n a : nat) :
  (a < n)%nat ->
  eye n !! a = Some (map (fun j => if (a =? j)%nat then 1 else 0) (seq 0 n)).
Proof.
  intros Ha. unfold eye. rewrite list_lookup_fmap.
  rewrite lookup_seq_lt by exact Ha. reflexivity.
Qed.

(** X16.  The row that [_build_inputs] gives to the agent for agent [a]
    of batch entry [b] is the observation of that agent, followed, when
    the last action is part of the input, by its one-hot action of the
    step before (by zeros at step 0), followed, when the identifier is
    part of the input, by the one-hot code of [a]. *)
Theorem build_inputs_row (self : XTransMAC) (ep_batch : EpisodeBatch)
    (t : nat) (task : string) (task_args : TaskArgs) (n b a : nat)
    (ob : list (list R)) (o : list R) (ac : list (list R)) (l : list R) :
  task2args self !! task = Some task_args ->
  task2n_agents self !! task = Some n ->
  (b < batch_size ep_batch)%nat ->
  Forall (fun e => length e = n) (obs ep_batch t) ->
  obs ep_batch t !! b = Some ob -> ob !! a = Some o ->
  Forall (fun e => length e = n)
         (actions_onehot ep_batch (if (t =? 0)%nat then t else (t - 1)%nat)) ->
  actions_onehot ep_batch (if (t =? 0)%nat then t else (t - 1)%nat) !! b
  = Some ac ->
  ac !! a = Some l ->
  exists inputs,
    _build_inputs self ep_batch t task = Return inputs /\
    inputs !! (b * n + a)%nat
    = Some (o
            ++ (if obs_last_action task_args
                then if (t =? 0)%nat then map (fun _ => 0) l else l
                else [])
            ++ (if obs_agent_id task_args
                then map (fun j => if (a =? j)%nat then 1 else 0) (seq 0 n)
                else [])).
Proof.
  intros Hargs Hn Hb Hon Hob Ho Han Hac Hl.
  assert (Ha : (a < n)%nat).
  { rewrite Forall_forall in Hon.
    rewrite <- (Hon ob) by (eapply list_elem_of_lookup_2, Hob).
    eapply lookup_lt_Some, Ho. }
  pose proof (MACSpec.lookup_concat_same_length n b a _ ob o Hon Hob Ho) as Hobs.
  assert (Hlast :
    concat (if (t =? 0)%nat then zeros_like (actions_onehot ep_batch t)
            else actions_onehot ep_batch (t - 1)) !! (b * n + a)%nat
    = Some (if (t =? 0)%nat then map (fun _ => 0) l else l)).
  { destruct (t =? 0)%nat.
    - apply (MACSpec.lookup_concat_same_length n b a _
               (map (map (fun _ => 0)) ac)).
      + unfold zeros_like. apply Forall_map.
        eapply Forall_impl; [exact Han|]. intros e He. simpl.
        rewrite length_map. exact He.
      + unfold zeros_like. rewrite list_lookup_fmap, Hac. reflexivity.
      + rewrite list_lookup_fmap, Hl. reflexivity.
    - apply (MACSpec.lookup_concat_same_length n b a _ ac); assumption. }
  assert (Hid :
    concat (replicate (batch_size ep_batch) (eye n)) !! (b * n + a)%nat
    = Some (map (fun j => if (a =? j)%nat then 1 else 0) (seq 0 n))).
  { apply (MACSpec.lookup_concat_same_length n b a _ (eye n)).
    - apply Forall_replicate. unfold eye. rewrite length_map. apply length_seq.
    - apply lookup_replicate_2, Hb.
    - apply eye_lookup, Ha. }
  unfold _build_inputs, getitem. rewrite Hargs, Hn. simpl.
  eexists. split; [reflexivity|].
  destruct (obs_last_action task_args), (obs_agent_id task_args); simpl.
  - destruct (t =? 0)%nat; simpl; rewrite app_assoc;
      apply cat_last_lookup; try exact Hid;
      apply cat_last_lookup; assumption.
  - rewrite app_nil_r.
    destruct (t =? 0)%nat; simpl; apply cat_last_lookup; assumption.
  - apply cat_last_lookup; assumption.
  - rewrite app_nil_r. exact Hobs.
Qed.

(** *** The dynamic model, the accessor and the files *)

(** X17.  [task_encoder_forward] for a task never touches the dynamic
    decoder of another task, whether it returns or raises. *)
Theorem task_encoder_forward_other_decoders (self : XTransMAC)
    (batch : EpisodeBatch) (t : nat) (task task' : string) :
  task' <> task ->
  task2dynamic_decoder (task_encoder_forward self batch t task).1 !! task'
  = task2dynamic_decoder self !! task'.
Proof.
  intros Hne. unfold task_encoder_forward.
  destruct (get_task_repres self task false) as [task_repre|e]; [|reflexivity].
  destruct (encoder_call _ _ _ _ _ _) as [[encoded_latent bs] encoder'].
  destruct (getitem _ task) as [decoder|e]; [|reflexivity].
  destruct (decoder_call _ _ _) as [[[next_obs next_state] reward] decoder'].
  simpl. apply lookup_insert_ne. congruence.
Qed.

End WithNetworks.

Lemma forward_raw_values_witness :
  (forall agent_outs avail_actions,
     policy (ControllerExamples.ex_mac "q" None) agent_outs avail_actions true
     = agent_outs) /\
  forward (ControllerExamples.ex_mac "q" None)
          (ControllerExamples.ex_batch [0; 0] [1; 1]%Z) 0 "t" true
  = forward (ControllerExamples.ex_mac "q" None)
            (ControllerExamples.ex_batch [0; 0] [1; 1]%Z) 0 "t" false.
Proof.
  apply (forward_raw_values (ControllerExamples.ex_mac "q" None)).
  discriminate.
Defined.

Lemma policy_keeps_shape_witness :
  Forall2 (fun row o => length row = length o)
    (policy (ControllerExamples.ex_mac "pi_logits" None) [[0; 0; 0]]
            [[[1; 0; 1]%Z]] false)
    [[0; 0; 0]].
Proof.
  apply (policy_keeps_shape (ControllerExamples.ex_mac "pi_logits" None)).
  repeat constructor.
Defined.

Lemma padding_row_is_zero_witness :
  exists row,
    policy (ControllerExamples.ex_mac "pi_logits" None) [[1; 2]]
           [[[0; 0]%Z]] false !! 0%nat = Some row /\
    Forall (fun p => p = 0) row.
Proof.
  apply (padding_row_is_zero (ControllerExamples.ex_mac "pi_logits" None)
           [[1; 2]] [[[0; 0]%Z]] 0 [1; 2] [0; 0]%Z); try reflexivity.
  repeat constructor.
Defined.

Lemma unmasked_row_sums_to_one_witness :
  exists row,
    policy (ControllerExamples.ex_mac "pi_logits" (Some false)) [[1; 2]]
           [[[1; 0]%Z]] false !! 0%nat = Some row /\
    rsum row = 1.
Proof.
  apply (unmasked_row_sums_to_one
           (ControllerExamples.ex_mac "pi_logits" (Some false))
           [[1; 2]] [[[1; 0]%Z]] 0 [1; 2]); try reflexivity.
  discriminate.
Defined.

Lemma full_exploration_is_uniform_witness :
  exists row,
    policy ExtraExamples.ex_mac_explore [[1; 2; 3]] [[[1; 0; 1]%Z]] false
      !! 0%nat = Some row /\
    forall j a, [1; 0; 1]%Z !! j = Some a ->
      exists p, row !! j = Some p /\
        p = if (a =? 0)%Z then 0 else 1 / INR (count_avail [1; 0; 1]%Z).
Proof.
  apply (full_exploration_is_uniform ExtraExamples.ex_mac_explore
           [[1; 2; 3]] [[[1; 0; 1]%Z]] 0 [1; 2; 3] [1; 0; 1]%Z);
    try reflexivity.
  unfold is_mask. repeat (constructor; [lia|]). constructor.
Defined.

Lemma training_row_is_subdistribution_witness :
  exists row,
    policy (ControllerExamples.ex_mac "pi_logits" None) [[1; 2; 3]]
           [[[1; 0; 1]%Z]] false !! 0%nat = Some row /\
    Forall (Rle 0) row /\ rsum row = sum_avail row [1; 0; 1]%Z /\
    rsum row <= 1.
Proof.
  apply (training_row_is_subdistribution
           (ControllerExamples.ex_mac "pi_logits" None)
           [[1; 2; 3]] [[[1; 0; 1]%Z]] 0 [1; 2; 3] [1; 0; 1]%Z);
    try reflexivity.
  - simpl. lra.
  - unfold is_mask. repeat (constructor; [lia|]). constructor.
  - exists 0%nat. reflexivity.
Defined.

Lemma build_inputs_matches_input_shape_witness :
  exists inputs,
    _build_inputs ExtraExamples.ex_mac_inputs ExtraExamples.ex_batch_inputs
                  1 "t" = Return inputs /\
    Shape.shape2 (1 * 2) 7 inputs.
Proof.
  apply (build_inputs_matches_input_shape ExtraExamples.ex_mac_inputs
           ExtraExamples.ex_scheme {["t" := mkInputShapeInfo 7 3 2]}
           ExtraExamples.ex_batch_inputs 1 "t" (mkInputShapeInfo 7 3 2)
           (mkScheme 2 3) (mkTaskArgs 2 true true) 2); try reflexivity.
  - unfold Shape.shape3. simpl. repeat constructor.
  - intros _. unfold Shape.shape3. simpl. repeat constructor.
Defined.

Lemma build_inputs_row_witness :
  exists inputs,
    _build_inputs ExtraExamples.ex_mac_inputs ExtraExamples.ex_batch_inputs
                  1 "t" = Return inputs /\
    inputs !! (0 * 2 + 1)%nat
    = Some ([3; 4] ++ [0; 0; 1]
            ++ map (fun j => if (1 =? j)%nat then 1 else 0) (seq 0 2)).
Proof.
  apply (build_inputs_row ExtraExamples.ex_mac_inputs
           ExtraExamples.ex_batch_inputs 1 "t" (mkTaskArgs 2 true true) 2 0 1
           [[1; 2]; [3; 4]] [3; 4] [[0; 1; 0]; [0; 0; 1]] [0; 0; 1]);
    try reflexivity.
  - simpl. lia.
  - repeat constructor.
  - repeat constructor.
Defined.

Lemma task_encoder_forward_other_decoders_witness :
  task2dynamic_decoder
    (task_encoder_forward StoreExamples.ex_mac2
       (ControllerExamples.ex_batch [0; 0] [1; 1]%Z) 0 "a").1 !! "b"
  = task2dynamic_decoder StoreExamples.ex_mac2 !! "b".
Proof.
  apply (task_encoder_forward_other_decoders StoreExamples.ex_mac2).
  discriminate.
Defined.

End MACExtra.

(** ** More on the task representations *)

Module ReprExtra.
Import Tensor TensorFacts MAC LinAlg ReprSpec.

(** The loop only adds vectors at the end of the basis. *)
Lemma orthogonalize_prefix (vecs ret gram : list (list R)) :
  orthogonalize vecs ret = Return gram -> exists rest, gram = ret ++ rest.
Proof.
  revert ret. induction vecs as [|vec vecs IH]; intros ret Hg;
    cbn [orthogonalize] in Hg.
  - injection Hg as <-. exists []. symmetry. apply app_nil_r.
  - destruct (is_zero_matrix (perp_to_subspace vec ret)); [discriminate|].
    destruct (IH _ Hg) as [rest ->]. exists (perp_to_subspace vec ret :: rest).
    rewrite <- app_assoc. reflexivity.
Qed.

Lemma GramSchmidt_head (vec : list R) (vlist gram : list (list R)) :
  GramSchmidt (vec :: vlist) = Return gram -> gram !! 0%nat = Some vec.
Proof.
  unfold GramSchmidt. destruct (is_zero_matrix vec) eqn:Ez; [discriminate|].
  cbn [orthogonalize]. change (perp_to_subspace vec []) with vec. rewrite Ez.
  intros Hg. destruct (orthogonalize_prefix _ _ _ Hg) as [rest ->]. reflexivity.
Qed.

Section WithNetworks.
Context `{Networks}.

(** X23.  Whatever numbers are drawn, when [init_task_repres] returns, the
    store it has built has exactly the training tasks as keys, and every
    stored vector has [task_repre_dim] entries and a norm of at most 1. *)
Theorem task_repres_store_sound (self self' : XTransMAC)
    (rand : nat -> nat -> R) :
  init_task_repres self rand = Return self' ->
  (forall task, is_Some (task2repre self' !! task)
                <-> task ∈ train_tasks self) /\
  (forall task u, task2repre self' !! task = Some u ->
     length u = task_repre_dim (main_args self) /\ norm2 u <= 1).
Proof.
  intros Hinit.
  destruct (init_task_repres_inv self self' rand Hinit)
    as (gram & _ & Hl & Hn & ->).
  cbn [task2repre set_task2repre]. split.
  - intros task. apply store_is_Some.
  - intros task u Hu.
    destruct (store_lookup_inv _ gram task u Hl Hu) as (k & g & _ & Hg & ->).
    apply list_elem_of_lookup_2 in Hg. rewrite Forall_forall in Hn.
    rewrite length_normalize. split; [apply Hn, Hg | apply norm2_normalize_le].
Qed.

(** X24.  When [init_task_repres] returns and the first training task is
    not listed again, the vector stored for it is the first row drawn
    divided by [max(norm, 1e-12)]: Gram-Schmidt leaves the first vector
    as it is. *)
Theorem first_task_keeps_its_draw (self self' : XTransMAC)
    (rand : nat -> nat -> R) (task : string) (rest : list string) :
  init_task_repres self rand = Return self' ->
  train_tasks self = task :: rest -> task ∉ rest ->
  task2repre self' !! task
  = Some (normalize (map (fun j => rand 0%nat j)
                         (seq 0 (task_repre_dim (main_args self))))).
Proof.
  intros Hinit Ht Hnot.
  destruct (init_task_repres_inv self self' rand Hinit)
    as (gram & Hg & _ & _ & ->).
  cbn [task2repre set_task2repre]. rewrite Ht in *.
  unfold rand_matrix in Hg. cbn [length seq map] in Hg.
  apply GramSchmidt_head in Hg.
  cbn [length seq zip_with foldl fst snd].
  rewrite (foldl_ins_other (map normalize gram) []).
  - rewrite lookup_insert_eq. f_equal. apply nth_lookup_Some.
    rewrite list_lookup_fmap, Hg. reflexivity.
  - rewrite snd_zip by (rewrite length_seq; reflexivity). exact Hnot.
Qed.

(** X25.  After a successful [init_task_repres], [get_task_repres] on a
    training task that has a number of agents returns that many copies
    of one vector of [task_repre_dim] entries and norm at most 1: the
    matrix of shape [n_agents, task_repre_dim] that the dynamic encoder
    and the mixer are given. *)
Theorem get_task_repres_after_init (self self' : XTransMAC)
    (rand : nat -> nat -> R) (task : string) (k : nat) :
  init_task_repres self rand = Return self' ->
  task ∈ train_tasks self -> task2n_agents self !! task = Some k ->
  exists u, get_task_repres self' task false = Return (replicate k u) /\
            task2repre self' !! task = Some u /\
            length u = task_repre_dim (main_args self) /\ norm2 u <= 1.
Proof.
  intros Hinit Hin Hk.
  destruct (init_task_repres_inv self self' rand Hinit)
    as (gram & _ & Hl & Hn & ->).
  apply (store_is_Some _ (map normalize gram)) in Hin as [u Hu].
  exists u. unfold get_task_repres, getitem.
  cbn [task2repre task2n_agents set_task2repre]. rewrite Hu, Hk.
  split; [reflexivity|]. split; [reflexivity|].
  destruct (store_lookup_inv _ gram task u Hl Hu) as (i & g & _ & Hg & ->).
  apply list_elem_of_lookup_2 in Hg. rewrite Forall_forall in Hn.
  rewrite length_normalize. split; [apply Hn, Hg | apply norm2_normalize_le].
Qed.

End WithNetworks.

Lemma task_repres_store_sound_witness :
  init_task_repres StoreExamples.ex_mac2 StoreExamples.rand_diagonal
  = Return ExtraExamples.ex_mac2_filled /\
  (forall task, is_Some (task2repre ExtraExamples.ex_mac2_filled !! task)
                <-> task ∈ train_tasks StoreExamples.ex_mac2) /\
  (forall task u, task2repre ExtraExamples.ex_mac2_filled !! task = Some u ->
     length u = task_repre_dim (main_args StoreExamples.ex_mac2) /\
     norm2 u <= 1).
Proof.
  split; [exact ex_mac2_diagonal_init|].
  apply (task_repres_store_sound StoreExamples.ex_mac2
           ExtraExamples.ex_mac2_filled StoreExamples.rand_diagonal).
  exact ex_mac2_diagonal_init.
Defined.

Lemma first_task_keeps_its_draw_witness :
  task2repre ExtraExamples.ex_mac2_filled !! "a"
  = Some (normalize (map (fun j => StoreExamples.rand_diagonal 0%nat j)
                         (seq 0 2))).
Proof.
  apply (first_task_keeps_its_draw StoreExamples.ex_mac2
           ExtraExamples.ex_mac2_filled StoreExamples.rand_diagonal "a" ["b"]).
  - exact ex_mac2_diagonal_init.
  - reflexivity.
  - intros Hin. apply list_elem_of_singleton in Hin. discriminate.
Defined.

Lemma get_task_repres_after_init_witness :
  exists u,
    get_task_repres ExtraExamples.ex_mac2_filled "b" false
    = Return (replicate 2 u) /\
    task2repre ExtraExamples.ex_mac2_filled !! "b" = Some u /\
    length u = 2%nat /\ norm2 u <= 1.
Proof.
  apply (get_task_repres_after_init StoreExamples.ex_mac2
           ExtraExamples.ex_mac2_filled StoreExamples.rand_diagonal "b" 2).
  - exact ex_mac2_diagonal_init.
  - apply list_elem_of_In. simpl. tauto.
  - reflexivity.
Defined.

End ReprExtra.
